(** * CI check-run popover and log panel: a shallow embedding

    The development follows two React components of the desktop client:
    the check-run popover (its subscription life cycle, its summary line,
    its browser actions and the [donutSVG] path generator) and the
    check-run log panel ([CICheckRunLogs]).

    Conventions of the embedding.
    - A JavaScript [number] that holds a count is an [N]; the ratio
      [value / sum] of two counts is the exact rational ([Q]); a coordinate
      is a real ([R]), with [cos], [sin] and [PI] of the real-number library
      standing for [Math.cos], [Math.sin] and [Math.PI].  Rounding of
      IEEE doubles is not modelled.
    - A JavaScript [Map] is an association list in insertion order.
    - [null] / [undefined] are [option] or a three-valued type where the
      code tells them apart.
    - A thrown exception is [None]. *)

From Stdlib Require Import List String Ascii Bool NArith ZArith QArith.
From Stdlib Require Import Reals Lia Lra Lqa.
From Stdlib Require Import DecimalString.
Import ListNotations.

Local Open Scope string_scope.
Local Open Scope list_scope.
Local Open Scope N_scope.

(* ------------------------------------------------------------------ *)
(** ** The donut path generator *)
(* ------------------------------------------------------------------ *)

Module Donut.

(** An element of the array [d] that [donutSVG] joins with a space:
    either a path command letter or a number. *)
Inductive token : Type :=
| Cmd (s : string)
| Num (x : R).

Record path_entry : Type := mkPath { name : string; path : list token }.

Record donut : Type := mkDonut {
  paths : list path_entry;
  height : R;
  width : R;
  className : string
}.

Definition counts : Type := list (string * N).

Definition N2Q (n : N) : Q := inject_Z (Z.of_N n).
Definition N2R (n : N) : R := IZR (Z.of_N n).

(** [scale]: the point at [value / sum] of a full turn, starting at
    twelve o'clock, on the circle of the given radius around
    [(cxy, cxy)]. *)
Definition scale (value : N) (radius cxy : R) (sum : N) : list R :=
  let radians := (N2R value / N2R sum * PI * 2 - PI / 2)%R in
  [ (radius * cos radians + cxy)%R ; (radius * sin radians + cxy)%R ].

(** [[...values()].reduce((sum, v) => sum + v)]: no initial value, so
    an empty array throws. *)
Definition reduce_sum (values : list N) : option N :=
  match values with
  | [] => None
  | v :: rest => Some (fold_left N.add rest v)
  end.

(** [portion > 0.5] *)
Definition Qgt_bool (x y : Q) : bool := negb (Qle_bool x y).

Definition large_arc (portion : Q) : token :=
  Num (if Qgt_bool portion (1 # 2) then 1%R else 0%R).

(** One iteration of the [for] loop; the loop state is
    [(cumulative, paths)]. *)
Definition donut_step (sum : N) (outerRadius innerRadius cx cy : R)
    (st : N * list path_entry) (entry : string * N) : N * list path_entry :=
  let '(cumulative, paths) := st in
  let '(name, value) := entry in
  if value =? 0 then st
  else
    let portion := (N2Q value / N2Q sum)%Q in
    if Qeq_bool portion 1 then
      let x2 := (cx - 1 / 100)%R in
      let y1 := (cy - outerRadius)%R in
      let y2 := (cy - innerRadius)%R in
      let d := [Cmd "M"; Num cx; Num y1] in
      let d := d ++ [Cmd "A"; Num outerRadius; Num outerRadius; Num 0%R;
                     Num 1%R; Num 1%R; Num x2; Num y1] in
      let d := d ++ [Cmd "L"; Num x2; Num y2] in
      let d := d ++ [Cmd "A"; Num innerRadius; Num innerRadius; Num 0%R;
                     Num 1%R; Num 0%R; Num cx; Num y2] in
      (cumulative, paths ++ [mkPath name d])
    else
      let cumulative_plus_value := cumulative + value in
      let d := Cmd "M" :: map Num (scale cumulative outerRadius cx sum) in
      let d := d ++ [Cmd "A"; Num outerRadius; Num outerRadius; Num 0%R] in
      let d := d ++ [large_arc portion] in
      let d := d ++ [Num 1%R] in
      let d := d ++ map Num (scale cumulative_plus_value outerRadius cx sum) in
      let d := d ++ [Cmd "L"] in
      let d := d ++ map Num (scale cumulative_plus_value innerRadius cx sum) in
      let d := d ++ [Cmd "A"; Num innerRadius; Num innerRadius; Num 0%R] in
      let d := d ++ [large_arc portion] in
      let d := d ++ [Num 0%R] in
      let d := d ++ map Num (scale cumulative innerRadius cx sum) in
      (cumulative + value, paths ++ [mkPath name d]).

Definition donutSVG (donutValuesMap : counts) (outerRadius innerRadius : R)
    : option donut :=
  let diameter := (outerRadius * 2)%R in
  match reduce_sum (map snd donutValuesMap) with
  | None => None
  | Some sum =>
      let cx := (diameter / 2)%R in
      let cy := cx in
      let '(_, paths) :=
        fold_left (donut_step sum outerRadius innerRadius cx cy)
                  donutValuesMap (0, []) in
      Some (mkDonut paths diameter diameter "donut-chart")
  end.

(** The loop of [donutSVG] from a given [cumulative], with [paths]
    still empty; [cx = cy = diameter / 2]. *)
Definition sweep (sum : N) (outerRadius innerRadius : R)
    (entries : counts) (cumulative : N) : N * list path_entry :=
  fold_left
    (donut_step sum outerRadius innerRadius
                (outerRadius * 2 / 2) (outerRadius * 2 / 2))
    entries (cumulative, []).

(** *** Vocabulary of the statements *)

Definition nonzero (e : string * N) : bool := negb (snd e =? 0).

Definition total (m : counts) : N := fold_right N.add 0 (map snd m).

(** The angle, in radians, at [k / sum] of a full turn from twelve
    o'clock. *)
Definition angle (sum k : N) : R :=
  (2 * PI * (N2R k / N2R sum) - PI / 2)%R.

Definition on_circle (radius centre theta : R) : list token :=
  [ Num (radius * cos theta + centre)%R ; Num (radius * sin theta + centre)%R ].

(** The annular sector between the turns [from / sum] and [to / sum]:
    along the outer circle clockwise, a line to the inner circle, and
    back along the inner circle counter-clockwise. *)
Definition annular_arc (sum : N) (outer inner : R) (from to : N)
    (large : bool) : list token :=
  let flag := Num (if large then 1%R else 0%R) in
  [Cmd "M"] ++ on_circle outer outer (angle sum from)
    ++ [Cmd "A"; Num outer; Num outer; Num 0%R; flag; Num 1%R]
    ++ on_circle outer outer (angle sum to)
    ++ [Cmd "L"] ++ on_circle inner outer (angle sum to)
    ++ [Cmd "A"; Num inner; Num inner; Num 0%R; flag; Num 0%R]
    ++ on_circle inner outer (angle sum from).

(** The full-circle fallback, centre [(c, c)] with [c] the outer
    radius. *)
Definition full_annulus (outer inner : R) : list token :=
  [ Cmd "M"; Num outer; Num (outer - outer)%R;
    Cmd "A"; Num outer; Num outer; Num 0%R; Num 1%R; Num 1%R;
      Num (outer - 1 / 100)%R; Num (outer - outer)%R;
    Cmd "L"; Num (outer - 1 / 100)%R; Num (outer - inner)%R;
    Cmd "A"; Num inner; Num inner; Num 0%R; Num 1%R; Num 0%R;
      Num outer; Num (outer - inner)%R ].

End Donut.

(* ------------------------------------------------------------------ *)
(** ** The check-run log panel *)
(* ------------------------------------------------------------------ *)

Module Logs.

(** A string is its sequence of UTF-16 code units, so that [trim]
    can be given its ECMAScript meaning. *)
Definition jsstring : Type := list N.

(** WhiteSpace and LineTerminator code points of ECMAScript; all of
    them lie in the basic plane. *)
Definition is_white_space (c : N) : bool :=
  (9 <=? c) && (c <=? 13)
  || (c =? 32) || (c =? 160) || (c =? 5760)
  || (8192 <=? c) && (c <=? 8202)
  || (c =? 8232) || (c =? 8233) || (c =? 8239) || (c =? 8287)
  || (c =? 12288) || (c =? 65279).

Fixpoint trimStart (s : jsstring) : jsstring :=
  match s with
  | [] => []
  | c :: rest => if is_white_space c then trimStart rest else s
  end.

Definition trimEnd (s : jsstring) : jsstring := rev (trimStart (rev s)).

Definition trim (s : jsstring) : jsstring := trimEnd (trimStart s).

Definition is_empty (s : jsstring) : bool :=
  match s with [] => true | _ :: _ => false end.

(** [===] on strings. *)
Fixpoint jsstring_eqb (a b : jsstring) : bool :=
  match a, b with
  | [], [] => true
  | x :: a', y :: b' => (x =? y) && jsstring_eqb a' b'
  | _, _ => false
  end.

Inductive RefCheckOutputType : Type := Actions | Default.

Definition type_eqb (a b : RefCheckOutputType) : bool :=
  match a, b with
  | Actions, Actions | Default, Default => true
  | _, _ => false
  end.

(** [string | null | undefined] *)
Inductive optional (A : Type) : Type :=
| Undefined
| Null
| Value (a : A).
Arguments Undefined {A}.
Arguments Null {A}.
Arguments Value {A} a.

(** The fields of the output that the panel reads.  [text] is only
    read once [type] is known not to be [Actions]. *)
Record IRefCheckOutput : Type := mkOutput {
  type : RefCheckOutputType;
  title : option jsstring;
  summary : optional jsstring;
  text : option jsstring
}.

(** The fields of the check run that the panel reads;
    [actionsWorkflowRunId] is [number | undefined]. *)
Record IRefCheck : Type := mkCheck {
  name : jsstring;
  output : IRefCheckOutput;
  actionsWorkflowRunId : option N
}.

Record ICICheckRunLogsProps : Type := mkProps {
  checkRun : IRefCheck;
  loadingActionLogs : bool;
  loadingActionWorkflows : bool
}.

(** What the meta-output block shows: the title heading, if any, and
    the summary markdown, if any. *)
Record meta_output : Type := mkMeta {
  heading : option jsstring;
  summary_markdown : option jsstring
}.

(** The first child of the output container. *)
Inductive info : Type :=
| EmptyLogOutput (message : string)
| MetaOutput (m : option meta_output).

(** The second child of the output container. *)
Inductive logs_output : Type :=
| ActionLogs (o : IRefCheckOutput) (loadingLogs : bool)
| NonActionsLogOutput (markdown : option jsstring).

Inductive element : Type :=
| LoadingLogs
| LogsPanel (actions : bool) (first : info) (second : logs_output).

Section Component.

Variable toLocaleLowerCase : jsstring -> jsstring.
Variable props : ICICheckRunLogsProps.

Definition hasActionsWorkflowLogs : bool :=
  match actionsWorkflowRunId (checkRun props) with
  | Some _ => true
  | None => false
  end.

Definition isNoOutputText (output : IRefCheckOutput) : bool :=
  negb hasActionsWorkflowLogs
  && type_eqb (type output) Default
  && match text output with
     | None => true
     | Some t => is_empty (trim t)
     end.

Definition isNoAdditionalInfoToDisplay (output : IRefCheckOutput) : bool :=
  isNoOutputText output
  && match summary output with
     | Undefined => true
     | Null => true
     | Value s => is_empty (trim s)
     end.

Definition getNonActionsOutputMD (output : IRefCheckOutput)
    : option jsstring :=
  let mainOutput :=
    match type output, text output with
    | Default, Some t => trim t
    | _, _ => []
    end in
  let summaryOutput :=
    match summary output with
    | Value s => if is_empty (trim s) then [] else s
    | _ => []
    end in
  let combinedOutput := summaryOutput ++ mainOutput in
  if is_empty combinedOutput then None else Some combinedOutput.

Definition renderNonActionsLogOutput (output : IRefCheckOutput)
    : option jsstring :=
  let markdown := getNonActionsOutputMD output in
  if type_eqb (type output) Actions then None else markdown.

Definition renderMetaOutput (output : IRefCheckOutput)
    (checkRunName : jsstring) : option meta_output :=
  if hasActionsWorkflowLogs then None
  else
    let displayTitle :=
      match title output with
      | None => false
      | Some t =>
          negb (is_empty (trim t))
          && negb (jsstring_eqb (toLocaleLowerCase (trim t))
                                (toLocaleLowerCase (trim checkRunName)))
      end in
    let cleanSummary :=
      match summary output with
      | Value s => if is_empty (trim s) then [] else trim s
      | _ => []
      end in
    let renderSummary :=
      negb (is_empty cleanSummary) && type_eqb (type output) Actions in
    Some (mkMeta (if displayTitle then title output else None)
                 (if renderSummary then Some cleanSummary else None)).

Definition renderEmptyLogOutput : info :=
  EmptyLogOutput "No additional information to display.".

Definition render : element :=
  let output := output (checkRun props) in
  let name := name (checkRun props) in
  if loadingActionWorkflows props then LoadingLogs
  else
    let logsOutput :=
      if hasActionsWorkflowLogs
      then ActionLogs output (loadingActionLogs props)
      else NonActionsLogOutput (renderNonActionsLogOutput output) in
    LogsPanel hasActionsWorkflowLogs
      (if isNoAdditionalInfoToDisplay output
       then renderEmptyLogOutput
       else MetaOutput (renderMetaOutput output name))
      logsOutput.

End Component.

(** *** Vocabulary of the statements *)

(** The panel shows [i] as the first child of its output container. *)
Definition shows (el : element) (i : info) : Prop :=
  exists actions second, el = LogsPanel actions i second.

Definition placeholder : info :=
  EmptyLogOutput "No additional information to display.".

(** A string with nothing left after trimming. *)
Definition blank (s : jsstring) : Prop := trim s = [].

(** No workflow run id, output of type [Default], text and summary
    absent or blank. *)
Definition nothing_to_show (c : IRefCheck) : Prop :=
  actionsWorkflowRunId c = None
  /\ type (output c) = Default
  /\ (text (output c) = None
      \/ exists t, text (output c) = Some t /\ blank t)
  /\ (summary (output c) = Null
      \/ summary (output c) = Undefined
      \/ exists s, summary (output c) = Value s /\ blank s).

End Logs.

(* ------------------------------------------------------------------ *)
(** ** The check-run popover *)
(* ------------------------------------------------------------------ *)

Module Popover.

(** The members of the conclusion enumeration that the component
    names, and the remaining ones by their tag. *)
Inductive APICheckConclusion : Type :=
| ActionRequired
| Canceled
| TimedOut
| Failure
| Success
| OtherConclusion (tag : string).

Definition conclusion_eqb (a b : APICheckConclusion) : bool :=
  match a, b with
  | ActionRequired, ActionRequired => true
  | Canceled, Canceled => true
  | TimedOut, TimedOut => true
  | Failure, Failure => true
  | Success, Success => true
  | OtherConclusion s, OtherConclusion t => String.eqb s t
  | _, _ => false
  end.

(** The fields of a check run that the popover reads. *)
Record IRefCheck : Type := mkCheck {
  conclusion : option APICheckConclusion;
  htmlUrl : option string
}.

Record ICombinedRefCheck : Type := mkCombined { checks : list IRefCheck }.

Record GitHubRepository : Type := mkRepo { htmlURL : option string }.

Record ICICheckRunPopoverProps : Type := mkProps {
  repository : GitHubRepository;
  branchName : string;
  prNumber : N
}.

Record ICICheckRunPopoverState : Type := mkState {
  checkRuns : list IRefCheck;
  checkRunSummary : string;
  loadingActionLogs : bool;
  loadingActionWorkflows : bool
}.

(** Decimal rendering of a number inside a template literal. *)
Definition string_of_N (n : N) : string :=
  NilEmpty.string_of_uint (N.to_uint n).

(** [Array.prototype.join] *)
Fixpoint join (sep : string) (l : list string) : string :=
  match l with
  | [] => ""
  | [x] => x
  | x :: rest => (x ++ sep ++ join sep rest)%string
  end.

(** [a.slice(0, -1)] and [a.slice(-1)] *)
Definition slice_init {A} (a : list A) : list A :=
  firstn (List.length a - 1) a.
Definition slice_last {A} (a : list A) : list A :=
  skipn (List.length a - 1) a.

(** [Map.prototype.get] and [Map.prototype.set] on a map kept in
    insertion order: setting a present key keeps its position. *)
Fixpoint map_get (k : string) (m : list (string * N)) : option N :=
  match m with
  | [] => None
  | (k', v) :: rest => if String.eqb k' k then Some v else map_get k rest
  end.

Fixpoint map_set (k : string) (v : N) (m : list (string * N))
    : list (string * N) :=
  match m with
  | [] => [(k, v)]
  | (k', v') :: rest =>
      if String.eqb k' k then (k', v) :: rest
      else (k', v') :: map_set k v rest
  end.

(** One iteration of the counting loop of [getCombinedCheckSummary],
    on the adjective. *)
Definition bump (a : string) (m : list (string * N)) : list (string * N) :=
  map_set a (match map_get a m with Some n => n | None => 0 end + 1) m.

(** The distinct strings of a list, in the order of their first
    occurrence, and how often each occurs. *)
Fixpoint distinct (l : list string) : list string :=
  match l with
  | [] => []
  | x :: rest => x :: filter (fun y => negb (String.eqb y x)) (distinct rest)
  end.

Definition occurrences (a : string) (l : list string) : N :=
  N.of_nat (count_occ string_dec l a).

Definition groups (l : list string) : list (string * N) :=
  map (fun a => (a, occurrences a l)) (distinct l).

Definition getCommitRef (prNumber : N) : string :=
  ("refs/pull/" ++ string_of_N prNumber ++ "/head")%string.

(** A handle returned by the dispatcher for one subscription. *)
Definition disposable : Type := nat.

(** What the component does to its surroundings, in order. *)
Inductive effect : Type :=
| TryGetCommitStatus (r : GitHubRepository) (ref branch : string)
| SubscribeToCommitStatus (r : GitHubRepository) (ref branch : string)
    (handle : disposable)
| Dispose (handle : disposable)
| OpenInBrowser (url : string)
| SetState (s : ICICheckRunPopoverState).

(** Modelled from the spec: the dispatcher, whose code is outside this
    slice.  It answers a synchronous best-effort status lookup from what
    it currently knows ([known]), keeps the subscriptions to status
    changes that are active ([active], here those whose callback is the
    component's [onStatus]) and hands out a fresh handle for each new
    one ([next]); disposing a handle removes its subscription. *)
Record dispatcher : Type := mkDispatcher {
  known : GitHubRepository -> string -> string -> option ICombinedRefCheck;
  active : list disposable;
  next : disposable
}.

(** The component instance with its surroundings. *)
Record world : Type := mkWorld {
  props : ICICheckRunPopoverProps;
  state : ICICheckRunPopoverState;
  statusSubscription : option disposable;
  disp : dispatcher;
  trace : list effect
}.

(** Computations over the world. *)
Definition M (A : Type) : Type := world -> A * world.

Definition ret {A} (a : A) : M A := fun w => (a, w).
Definition bind {A B} (c : M A) (k : A -> M B) : M B :=
  fun w => let '(a, w') := c w in k a w'.

Declare Scope popover_scope.
Delimit Scope popover_scope with popover.
Notation "x <- c ;; k" := (bind c (fun x => k))
  (at level 61, c at next level, right associativity) : popover_scope.
Notation "c ;; k" := (bind c (fun _ => k))
  (at level 61, right associativity) : popover_scope.

Definition exec {A} (c : M A) (w : world) : world := snd (c w).

(** A computation that leaves the dispatcher, the subscription handle
    and the props alone. *)
Definition quiet (c : M unit) : Prop :=
  forall w,
    disp (exec c w) = disp w
    /\ statusSubscription (exec c w) = statusSubscription w
    /\ props (exec c w) = props w.

Definition emit (e : effect) : M unit :=
  fun w => (tt, mkWorld (props w) (state w) (statusSubscription w)
                        (disp w) (trace w ++ [e])).

Definition getProps : M ICICheckRunPopoverProps := fun w => (props w, w).

Definition getSubscription : M (option disposable) :=
  fun w => (statusSubscription w, w).

Definition setSubscription (s : option disposable) : M unit :=
  fun w => (tt, mkWorld (props w) (state w) s (disp w) (trace w)).

Definition setState (s : ICICheckRunPopoverState) : M unit :=
  fun w => (tt, mkWorld (props w) s (statusSubscription w)
                        (disp w) (trace w ++ [SetState s])).

(** *** The dispatcher's operations *)

(** Modelled from the spec: the synchronous best-effort lookup answers
    from what the dispatcher knows and changes nothing. *)
Definition tryGetCommitStatus (r : GitHubRepository) (ref branch : string)
    : M (option ICombinedRefCheck) :=
  fun w =>
    (known (disp w) r ref branch,
     mkWorld (props w) (state w) (statusSubscription w) (disp w)
             (trace w ++ [TryGetCommitStatus r ref branch])).

(** Modelled from the spec: subscribing registers the callback under
    a fresh handle, which is returned. *)
Definition subscribeToCommitStatus (r : GitHubRepository)
    (ref branch : string) : M disposable :=
  fun w =>
    let d := disp w in
    let h := next d in
    (h,
     mkWorld (props w) (state w) (statusSubscription w)
             (mkDispatcher (known d) (active d ++ [h]) (S h))
             (trace w ++ [SubscribeToCommitStatus r ref branch h])).

(** Modelled from the spec: disposing a handle ends its subscription. *)
Definition dispose (h : disposable) : M unit :=
  fun w =>
    let d := disp w in
    (tt,
     mkWorld (props w) (state w) (statusSubscription w)
             (mkDispatcher (known d)
                (filter (fun h' => negb (Nat.eqb h' h)) (active d))
                (next d))
             (trace w ++ [Dispose h])).

(** Modelled from the spec: the request to open a page is recorded. *)
Definition openInBrowser (url : string) : M unit := emit (OpenInBrowser url).

Local Open Scope popover_scope.

Section Component.

(** Helpers of the check library and of the string library, outside
    this slice. *)
Variable getCheckRunConclusionAdjective : option APICheckConclusion -> string.
Variable toLocaleLowerCase : string -> string.
Variable getCheckStatusCountMap : list IRefCheck -> Donut.counts.

(** The state set by the constructor. *)
Definition initial_state : ICICheckRunPopoverState :=
  mkState [] "" true true.

(** The first loop of [getCombinedCheckSummary]. *)
Definition conclusionMap (checks : list IRefCheck) : list (string * N) :=
  fold_left
    (fun m check =>
       let adj := toLocaleLowerCase
                    (getCheckRunConclusionAdjective (conclusion check)) in
       map_set adj (match map_get adj m with Some n => n | None => 0 end + 1) m)
    checks [].

Definition getCombinedCheckSummary
    (combinedCheck : option ICombinedRefCheck) : string :=
  match combinedCheck with
  | None => ""
  | Some combined =>
      let checks := checks combined in
      if (List.length checks =? 0)%nat then ""
      else
        let summaryArray :=
          map (fun '(conclusion, count) => (count, conclusion))
              (conclusionMap checks) in
        if (1 <? List.length summaryArray)%nat then
          let output :=
            map (fun '(count, conclusion) =>
                   (string_of_N count ++ " " ++ conclusion)%string)
                summaryArray in
          (join ", " (slice_init output) ++ ", and "
             ++ join "," (slice_last output) ++ " checks")%string
        else
          match summaryArray with
          | (count, conclusion) :: _ =>
              let pluralize := if 1 <? count then "checks" else "check" in
              (string_of_N count ++ " " ++ conclusion ++ " " ++ pluralize)%string
          | [] => "" (* not reached: see [conclusionMap_nonempty] *)
          end
  end.

Definition is_null {A} (o : option A) : bool :=
  match o with None => true | Some _ => false end.

Definition onStatus (check : option ICombinedRefCheck) : M unit :=
  let checkRuns := match check with Some c => checks c | None => [] end in
  setState (mkState checkRuns
                    (getCombinedCheckSummary check)
                    (is_null check)
                    (is_null check)).

Definition unsubscribe : M unit :=
  s <- getSubscription ;;
  match s with
  | Some h => dispose h ;; setSubscription None
  | None => ret tt
  end.

Definition subscribe : M unit :=
  unsubscribe ;;
  p <- getProps ;;
  h <- subscribeToCommitStatus (repository p) (getCommitRef (prNumber p))
                               (branchName p) ;;
  setSubscription (Some h).

Definition componentDidMount : M unit :=
  p <- getProps ;;
  combinedCheck <- tryGetCommitStatus (repository p)
                     (getCommitRef (prNumber p)) (branchName p) ;;
  onStatus combinedCheck ;;
  subscribe.

Definition componentWillUnmount : M unit := unsubscribe.

(** A [null] inside a template literal. *)
Definition template_of (o : option string) : string :=
  match o with Some s => s | None => "null" end.

Definition onViewCheckDetails (checkRun : IRefCheck) : M unit :=
  p <- getProps ;;
  match htmlUrl checkRun, htmlURL (repository p) with
  | None, None => ret tt
  | _, _ =>
      let url :=
        match htmlUrl checkRun with
        | Some u => u
        | None => (template_of (htmlURL (repository p)) ++ "/pull/"
                     ++ string_of_N (prNumber p))%string
        end in
      openInBrowser url
  end.

(** Modelled from the spec: a status change pushed by the dispatcher
    reaches the callback of every subscription that is active. *)
Definition statusChanged (check : option ICombinedRefCheck) : M unit :=
  fun w =>
    fold_left (fun c _ => c ;; onStatus check) (active (disp w)) (ret tt) w.

(** *** Vocabulary of the summary statements *)

(** The lower-cased conclusion adjective of each check, in order. *)
Definition adjectives (checks : list IRefCheck) : list string :=
  map (fun check =>
         toLocaleLowerCase
           (getCheckRunConclusionAdjective (conclusion check)))
      checks.

(** The "<count> <adjective>" items, one per distinct adjective in
    the order of first occurrence. *)
Definition items (checks : list IRefCheck) : list string :=
  map (fun '(a, n) => (string_of_N n ++ " " ++ a)%string)
      (groups (adjectives checks)).

(** *** The completeness indicator *)

Inductive indicator : Type :=
| SpinOcticon
| SuccessOcticon
| ErrorOcticon
| Svg (className : string) (viewBox : list R)
      (svgPaths : list (nat * string * list Donut.token)).

Definition includes (l : list APICheckConclusion) (c : APICheckConclusion)
    : bool := existsb (conclusion_eqb c) l.

Definition renderCompletenessIndicator (st : ICICheckRunPopoverState)
    : option indicator :=
  if (List.length (checkRuns st) =? 0)%nat then Some SpinOcticon
  else
    let allSucccess :=
      negb (existsb
              (fun v => match conclusion v with
                        | Some c => negb (conclusion_eqb c Success)
                        | None => true
                        end)
              (checkRuns st)) in
    if allSucccess then Some SuccessOcticon
    else
      let allFailure :=
        negb (existsb
                (fun v => match conclusion v with
                          | None => true
                          | Some c =>
                              negb (includes [Failure; Canceled;
                                              ActionRequired; TimedOut] c)
                          end)
                (checkRuns st)) in
      if allFailure then Some ErrorOcticon
      else
        match Donut.donutSVG (getCheckStatusCountMap (checkRuns st)) 15 9 with
        | None => None
        | Some d =>
            let svgPaths :=
              combine (seq 0 (List.length (Donut.paths d)))
                      (Donut.paths d) in
            Some (Svg (Donut.className d)
                      [0%R; 0%R; Donut.width d; Donut.height d]
                      (map (fun '(i, p) => (i, Donut.name p, Donut.path p))
                           svgPaths))
        end.

(** *** The life cycle as a step relation *)

Inductive event : Type :=
| Mount
| Subscribe
| Unmount
| StatusChange (check : option ICombinedRefCheck).

Definition run (e : event) : M unit :=
  match e with
  | Mount => componentDidMount
  | Subscribe => subscribe
  | Unmount => componentWillUnmount
  | StatusChange check => statusChanged check
  end.

Definition step (e : event) (w : world) : world := exec (run e) w.

Definition initial (p : ICICheckRunPopoverProps)
    (k : GitHubRepository -> string -> string -> option ICombinedRefCheck)
    (n : disposable) : world :=
  mkWorld p initial_state None (mkDispatcher k [] n) [].

Inductive reachable : world -> Prop :=
| reach_initial p k n : reachable (initial p k n)
| reach_step w e : reachable w -> reachable (step e w).

(** The active subscriptions are exactly the one the component
    holds, if any. *)
Definition single_subscription (w : world) : Prop :=
  active (disp w) =
    match statusSubscription w with Some h => [h] | None => [] end.

End Component.

End Popover.

(* ------------------------------------------------------------------ *)
(** ** The shape of a donut path *)
(* ------------------------------------------------------------------ *)

Module DonutShape.
Import Donut.

(** A path of four commands: move to a point, an arc of the outer
    radius drawn clockwise, a line, an arc of the inner radius drawn
    counter-clockwise; the two arcs carry the same large-arc flag. *)
Definition ring_path (outer inner : R) (d : list token) : Prop :=
  exists (large : bool) x0 y0 x1 y1 x2 y2 x3 y3,
    let flag := Num (if large then 1%R else 0%R) in
    d = [ Cmd "M"; Num x0; Num y0;
          Cmd "A"; Num outer; Num outer; Num 0%R; flag; Num 1%R;
            Num x1; Num y1;
          Cmd "L"; Num x2; Num y2;
          Cmd "A"; Num inner; Num inner; Num 0%R; flag; Num 0%R;
            Num x3; Num y3 ].


End DonutShape.

(* ------------------------------------------------------------------ *)
(** ** The popover's view and its remaining actions *)
(* ------------------------------------------------------------------ *)

Module PopoverView.
Import Popover.

Local Open Scope popover_scope.

(** What is below the header: the list of check runs with the props it
    is given, or the "Stand By" notice. *)
Inductive content : Type :=
| CheckRunList (checkRuns : list IRefCheck)
               (loadingActionLogs loadingActionWorkflows : bool)
| CheckRunLoadings.

(** The rendered popover: the completeness indicator, the summary line,
    whether the re-run button is disabled, and the content. *)
Record view : Type := mkView {
  completeness : indicator;
  summary_line : string;
  rerun_disabled : bool;
  below : content
}.

Section View.

Variable getCheckRunConclusionAdjective : option APICheckConclusion -> string.
Variable toLocaleLowerCase : string -> string.
Variable getCheckStatusCountMap : list IRefCheck -> Donut.counts.

(** A step of a workflow job, and the helper of the check library that
    gives the page of a step, both outside this slice. *)
Variable IAPIWorkflowJobStep : Type.
Variable getCheckRunStepURL :
  IRefCheck -> IAPIWorkflowJobStep -> GitHubRepository -> N -> option string.

Definition onViewJobStep (checkRun : IRefCheck) (step : IAPIWorkflowJobStep)
    : M unit :=
  p <- getProps ;;
  let url := getCheckRunStepURL checkRun step (repository p) (prNumber p) in
  match url with
  | Some u => openInBrowser u
  | None => ret tt
  end.

(** The [disabled] attribute of the button of [renderRerunButton]. *)
Definition renderRerunButton (st : ICICheckRunPopoverState) : bool :=
  (List.length (checkRuns st) =? 0)%nat || loadingActionWorkflows st.

Definition render (st : ICICheckRunPopoverState) : option view :=
  match renderCompletenessIndicator getCheckStatusCountMap st with
  | None => None
  | Some i =>
      Some (mkView i (checkRunSummary st) (renderRerunButton st)
              (if negb (loadingActionLogs st)
               then CheckRunList (checkRuns st) (loadingActionLogs st)
                                 (loadingActionWorkflows st)
               else CheckRunLoadings))
  end.

(** The state that [onStatus] sets. *)
Definition delivered (check : option ICombinedRefCheck)
    : ICICheckRunPopoverState :=
  mkState (match check with Some c => checks c | None => [] end)
          (getCombinedCheckSummary getCheckRunConclusionAdjective
                                   toLocaleLowerCase check)
          (is_null check) (is_null check).

(** *** The component in use: life cycle and the user's clicks *)

Inductive action : Type :=
| Cycle (e : event)
| ViewCheckDetails (checkRun : IRefCheck)
| ViewJobStep (checkRun : IRefCheck) (step : IAPIWorkflowJobStep).

Definition act (a : action) (w : world) : world :=
  match a with
  | Cycle e => step getCheckRunConclusionAdjective toLocaleLowerCase e w
  | ViewCheckDetails checkRun => exec (onViewCheckDetails checkRun) w
  | ViewJobStep checkRun step => exec (onViewJobStep checkRun step) w
  end.

Inductive in_use : world -> Prop :=
| use_initial p k n : in_use (initial p k n)
| use_act w a : in_use w -> in_use (act a w).

End View.

(** *** Vocabulary of the statements *)

(** The handles handed out, and the handles disposed, along a trace. *)
Fixpoint subscribed (tr : list effect) : list disposable :=
  match tr with
  | [] => []
  | SubscribeToCommitStatus _ _ _ h :: rest => h :: subscribed rest
  | _ :: rest => subscribed rest
  end.

Fixpoint disposed (tr : list effect) : list disposable :=
  match tr with
  | [] => []
  | Dispose h :: rest => h :: disposed rest
  | _ :: rest => disposed rest
  end.

(** The pages opened along a trace. *)
Fixpoint opened (tr : list effect) : list string :=
  match tr with
  | [] => []
  | OpenInBrowser u :: rest => u :: opened rest
  | _ :: rest => opened rest
  end.

Definition held (w : world) : list disposable :=
  match statusSubscription w with Some h => [h] | None => [] end.

(** A state as [onStatus] leaves it: the two flags agree, nothing is
    listed while loading, and the summary is that of the listed runs. *)
Definition settled (summary : option ICombinedRefCheck -> string)
    (st : ICICheckRunPopoverState) : Prop :=
  loadingActionLogs st = loadingActionWorkflows st
  /\ (loadingActionWorkflows st = true -> checkRuns st = [])
  /\ checkRunSummary st =
       summary (if loadingActionWorkflows st then None
                else Some (mkCombined (checkRuns st))).

(** The conclusions that [renderCompletenessIndicator] counts as failed. *)
Definition failed (c : option APICheckConclusion) : Prop :=
  c = Some Failure \/ c = Some Canceled \/ c = Some ActionRequired
  \/ c = Some TimedOut.

End PopoverView.

(* ------------------------------------------------------------------ *)
(** ** Facts about the donut path generator *)
(* ------------------------------------------------------------------ *)

Module DonutFacts.
Import Donut.

Example reduce_sum_empty : reduce_sum [] = None.
Proof. reflexivity. Qed.

Example reduce_sum_three : reduce_sum [2; 0; 1] = Some 3.
Proof. reflexivity. Qed.

Lemma N2Q_pos (s : N) : s <> 0 -> (0 < N2Q s)%Q.
Proof.
  intros Hs. unfold N2Q. change 0%Q with (inject_Z 0).
  rewrite <- Zlt_Qlt. lia.
Qed.

Lemma N2Q_nonzero (s : N) : s <> 0 -> ~ (N2Q s == 0)%Q.
Proof.
  intros Hs H. pose proof (N2Q_pos s Hs) as Hp. rewrite H in Hp.
  exact (Qlt_irrefl _ Hp).
Qed.

Lemma portion_times_sum (v s : N) :
  s <> 0 -> (N2Q v / N2Q s * N2Q s == N2Q v)%Q.
Proof. intros Hs. field. now apply N2Q_nonzero. Qed.

Lemma portion_eq_one (v s : N) :
  s <> 0 -> ((N2Q v / N2Q s == 1)%Q <-> v = s).
Proof.
  intros Hs. split.
  - intros H. pose proof (portion_times_sum v s Hs) as E.
    rewrite H, Qmult_1_l in E. unfold N2Q in E.
    rewrite inject_Z_injective in E. lia.
  - intros ->. field. now apply N2Q_nonzero.
Qed.

Lemma portion_lt_one (v s : N) :
  s <> 0 -> ((N2Q v / N2Q s < 1)%Q <-> v < s).
Proof.
  intros Hs. pose proof (N2Q_pos s Hs) as Hp. split.
  - intros H.
    pose proof (Qmult_lt_compat_r _ _ (N2Q s) Hp H) as E.
    rewrite (portion_times_sum v s Hs), Qmult_1_l in E.
    unfold N2Q in E. rewrite <- Zlt_Qlt in E. lia.
  - intros H. apply Qlt_shift_div_r; [exact Hp|].
    rewrite Qmult_1_l. unfold N2Q. rewrite <- Zlt_Qlt. lia.
Qed.

Lemma portion_gt_half (v s : N) :
  s <> 0 -> ((1 # 2 < N2Q v / N2Q s)%Q <-> s < 2 * v).
Proof.
  intros Hs. pose proof (N2Q_pos s Hs) as Hp. split.
  - intros H.
    pose proof (Qmult_lt_compat_r _ _ (N2Q s) Hp H) as E.
    rewrite (portion_times_sum v s Hs) in E.
    unfold N2Q, Qlt, Qmult in E.
    cbn [Qnum Qden inject_Z Pos.mul] in E. lia.
  - intros H. apply Qlt_shift_div_l; [exact Hp|].
    unfold N2Q, Qlt, Qmult.
    cbn [Qnum Qden inject_Z Pos.mul]. lia.
Qed.

Lemma Qgt_bool_true (x y : Q) : Qgt_bool x y = true <-> (y < x)%Q.
Proof.
  unfold Qgt_bool. rewrite negb_true_iff, <- not_true_iff_false, Qle_bool_iff.
  split; [apply Qnot_le_lt | apply Qlt_not_le].
Qed.


Lemma reduce_sum_total (m : counts) (s : N) :
  reduce_sum (map snd m) = Some s -> m <> [] /\ s = total m.
Proof.
  destruct m as [|[n v] m]; [discriminate|]. cbn [map snd reduce_sum].
  intros [= <-]. split; [discriminate|].
  unfold total. cbn [map snd fold_right].
  generalize v. induction m as [|[n' v'] m IH]; intros a; cbn.
  - lia.
  - rewrite IH. lia.
Qed.

Lemma reduce_sum_nonempty (m : counts) :
  m <> [] -> exists s, reduce_sum (map snd m) = Some s.
Proof. destruct m as [|[n v] m]; [easy | intros _; eexists; reflexivity]. Qed.

Lemma total_app (a b : counts) : total (a ++ b) = total a + total b.
Proof.
  unfold total. induction a as [|[n v] a IH]; cbn in *; [reflexivity | lia].
Qed.

Lemma total_cons (n : string) (v : N) (m : counts) :
  total ((n, v) :: m) = v + total m.
Proof. reflexivity. Qed.

Lemma total_zero (m : counts) :
  total m = 0 <-> Forall (fun e => snd e = 0) m.
Proof.
  induction m as [|[n v] m IH].
  - split; [constructor | reflexivity].
  - rewrite total_cons. split.
    + intros H. constructor; [cbn; lia | apply IH; lia].
    + intros H. inversion H as [|? ? Hv Hm]; subst. cbn in Hv.
      apply IH in Hm. lia.
Qed.

Section Loop.

Variable sum : N.
Variables outer inner : R.

Let cx : R := (outer * 2 / 2)%R.
Let body := donut_step sum outer inner cx cx.

Local Abbreviation run := (sweep sum outer inner).

Lemma body_push (c : N) (ps : list path_entry) (e : string * N) :
  body (c, ps) e = (fst (body (c, []) e), ps ++ snd (body (c, []) e)).
Proof.
  unfold body, donut_step. destruct e as [n v].
  destruct (v =? 0); [cbn; now rewrite app_nil_r|].
  destruct (Qeq_bool _ 1); reflexivity.
Qed.

Lemma fold_push (m : counts) (c : N) (ps : list path_entry) :
  fold_left body m (c, ps) = (fst (run m c), ps ++ snd (run m c)).
Proof.
  unfold sweep. fold cx; fold body. revert c ps.
  induction m as [|e m IH]; intros c ps; cbn [fold_left].
  - cbn. now rewrite app_nil_r.
  - rewrite (body_push c ps e).
    destruct (body (c, []) e) as [c1 q1]. cbn [fst snd].
    rewrite IH, (IH c1 q1). cbn [fst snd]. now rewrite app_assoc.
Qed.

Lemma sweep_cons (e : string * N) (m : counts) (c : N) :
  run (e :: m) c =
    (fst (run m (fst (body (c, []) e))),
     snd (body (c, []) e) ++ snd (run m (fst (body (c, []) e)))).
Proof.
  unfold sweep at 1. fold cx; fold body. cbn [fold_left].
  destruct (body (c, []) e) as [c1 q1]. cbn [fst snd].
  apply fold_push.
Qed.

Lemma sweep_app (a b : counts) (c : N) :
  run (a ++ b) c =
    (fst (run b (fst (run a c))),
     snd (run a c) ++ snd (run b (fst (run a c)))).
Proof.
  unfold sweep at 1. rewrite fold_left_app.
  change (fold_left _ a (c, [])) with (run a c).
  destruct (run a c) as [c1 q1]. cbn [fst snd].
  apply fold_push.
Qed.

Lemma body_zero (n : string) (c : N) : body (c, []) (n, 0) = (c, []).
Proof. reflexivity. Qed.

Hypothesis sum_pos : sum <> 0.

Lemma body_full (n : string) (c : N) :
  body (c, []) (n, sum) = (c, [mkPath n (full_annulus outer inner)]).
Proof.
  unfold body, donut_step.
  destruct (N.eqb_spec sum 0) as [E|_]; [contradiction|].
  assert (H1 : Qeq_bool (N2Q sum / N2Q sum) 1 = true).
  { apply Qeq_bool_iff, portion_eq_one; auto. }
  rewrite H1. cbn [app]. unfold full_annulus, cx.
  replace (outer * 2 / 2)%R with outer by field. reflexivity.
Qed.

Lemma scale_on_circle (k : N) (radius : R) :
  map Num (scale k radius cx sum) = on_circle radius outer (angle sum k).
Proof.
  unfold scale, on_circle, angle, cx. cbn [map].
  replace (outer * 2 / 2)%R with outer by field.
  replace (N2R k / N2R sum * PI * 2 - PI / 2)%R
    with (2 * PI * (N2R k / N2R sum) - PI / 2)%R by ring.
  reflexivity.
Qed.

Lemma body_arc (n : string) (v c : N) :
  v <> 0 -> v <> sum ->
  body (c, []) (n, v) =
    (c + v, [mkPath n (annular_arc sum outer inner c (c + v)
                         (Qgt_bool (N2Q v / N2Q sum) (1 # 2)))]).
Proof.
  intros Hv Hne. unfold body, donut_step.
  destruct (N.eqb_spec v 0) as [E|_]; [contradiction|].
  destruct (Qeq_bool (N2Q v / N2Q sum) 1) eqn:H1.
  { apply Qeq_bool_iff, portion_eq_one in H1; auto. contradiction. }
  fold cx. rewrite !scale_on_circle.
  unfold annular_arc, large_arc. cbn [app]. reflexivity.
Qed.

Lemma sweep_zeros (m : counts) (c : N) :
  Forall (fun e => snd e = 0) m -> run m c = (c, []).
Proof.
  revert c. induction m as [|[n v] m IH]; intros c H; [reflexivity|].
  inversion H as [|? ? Hv Hm]; subst. cbn in Hv. subst v.
  rewrite sweep_cons, body_zero. cbn [fst snd]. rewrite IH by assumption.
  reflexivity.
Qed.

Lemma sweep_names (m : counts) (c : N) :
  map name (snd (run m c)) = map fst (filter nonzero m).
Proof.
  revert c. induction m as [|[n v] m IH]; intros c; [reflexivity|].
  rewrite sweep_cons. cbn [snd]. rewrite map_app, IH.
  cbn [filter]. unfold nonzero at 2. cbn [snd].
  destruct (N.eqb_spec v 0) as [->|Hv]; [reflexivity|].
  destruct (N.eq_dec v sum) as [->|Hne].
  - rewrite body_full. reflexivity.
  - rewrite body_arc by assumption. reflexivity.
Qed.

Lemma sweep_length (m : counts) (c : N) :
  List.length (snd (run m c)) = List.length (filter nonzero m).
Proof.
  rewrite <- (length_map name), sweep_names, length_map. reflexivity.
Qed.

(** While the running total stays below [sum], no entry takes the
    full-circle branch, so [cumulative] is the sum of the counts seen. *)
Lemma sweep_cumulative (m : counts) (c : N) :
  c + total m < sum -> fst (run m c) = c + total m.
Proof.
  revert c. induction m as [|[n v] m IH]; intros c H.
  - cbn. unfold total. cbn. lia.
  - rewrite total_cons in *. rewrite sweep_cons. cbn [fst].
    destruct (N.eqb_spec v 0) as [->|Hv].
    + rewrite body_zero. cbn [fst]. rewrite IH; lia.
    + rewrite body_arc by lia. cbn [fst]. rewrite IH; lia.
Qed.

End Loop.

Lemma donutSVG_unfold (m : counts) (outer inner : R) (s : N) :
  reduce_sum (map snd m) = Some s ->
  donutSVG m outer inner =
    Some (mkDonut (snd (sweep s outer inner m 0))
                  (outer * 2) (outer * 2) "donut-chart").
Proof.
  intros H. unfold donutSVG. rewrite H. unfold sweep.
  destruct (fold_left _ m (0, [])) as [c ps]. reflexivity.
Qed.


Example donutSVG_two_names :
  option_map (fun d => map name (paths d))
             (donutSVG [("success", 2); ("pending", 0); ("failure", 1)] 15 9)
  = Some ["success"; "failure"].
Proof.
  rewrite (donutSVG_unfold [("success", 2); ("pending", 0); ("failure", 1)]
             15 9 3 eq_refl).
  cbn [option_map paths].
  rewrite sweep_names by discriminate. reflexivity.
Qed.

Lemma angle_span (s c v : N) :
  s <> 0 ->
  (angle s (c + v) - angle s c = 2 * PI * (N2R v / N2R s))%R.
Proof.
  intros Hs. unfold angle, N2R. rewrite N2Z.inj_add, plus_IZR.
  assert (IZR (Z.of_N s) <> 0%R) by (apply not_0_IZR; lia).
  field. assumption.
Qed.

(** C1.  For a counts map with a positive sum, [donutSVG] returns one
    path per category with a nonzero count, named after the categories
    in the order of the map.  A category whose share [value / sum] is
    below 1 yields the annular sector from the turn
    [cumulative / sum] to the turn [(cumulative + value) / sum], where
    [cumulative] is the sum of the counts before it; hence the next
    sector starts where this one ends, the angle swept is the share of
    the full circle, and the large-arc flag is set exactly when the
    share exceeds one half. *)
Theorem donutSVG_arcs (m : counts) (outer inner : R) (s : N) :
  reduce_sum (map snd m) = Some s ->
  0 < s ->
  exists d,
    donutSVG m outer inner = Some d
    /\ map name (paths d) = map fst (filter nonzero m)
    /\ forall pre n v post,
         m = pre ++ (n, v) :: post ->
         v <> 0 ->
         (N2Q v / N2Q s < 1)%Q ->
         exists large,
           nth_error (paths d) (List.length (filter nonzero pre)) =
             Some (mkPath n (annular_arc s outer inner
                               (total pre) (total pre + v) large))
           /\ (large = true <-> (1 # 2 < N2Q v / N2Q s)%Q)
           /\ (angle s (total pre + v) - angle s (total pre)
               = 2 * PI * (N2R v / N2R s))%R
           /\ (forall mid, Forall (fun e => snd e = 0) mid ->
                 total (pre ++ (n, v) :: mid) = total pre + v).
Proof.
  intros Hsum Hpos.
  assert (Hs : s <> 0) by lia.
  destruct (reduce_sum_total m s Hsum) as [_ Htot].
  exists (mkDonut (snd (sweep s outer inner m 0))
                  (outer * 2) (outer * 2) "donut-chart").
  split; [now apply donutSVG_unfold|].
  cbn [paths]. split; [apply sweep_names; assumption|].
  intros pre n v post -> Hv Hlt.
  apply portion_lt_one in Hlt; [|assumption].
  rewrite total_app, total_cons in Htot.
  exists (Qgt_bool (N2Q v / N2Q s) (1 # 2)).
  repeat split.
  - rewrite sweep_app. cbn [snd].
    rewrite nth_error_app2 by (rewrite sweep_length by assumption; lia).
    rewrite sweep_length, Nat.sub_diag by assumption.
    rewrite sweep_cons. cbn [snd].
    rewrite (sweep_cumulative s outer inner Hs pre 0) by lia.
    rewrite N.add_0_l.
    rewrite body_arc by (assumption || lia). reflexivity.
  - apply Qgt_bool_true.
  - apply Qgt_bool_true.
  - apply angle_span; assumption.
  - intros mid Hmid. rewrite total_app, total_cons.
    apply total_zero in Hmid. lia.
Qed.

(** C2.  When one category's count is the whole (positive) sum, the
    only path that [donutSVG] returns is the full-circle fallback for
    that category: an outer and an inner arc, both with large-arc
    flag 1, ending 0.01 to the left of the start. *)
Theorem donutSVG_full_circle (pre post : counts) (n : string) (v : N)
    (outer inner : R) :
  v <> 0 ->
  reduce_sum (map snd (pre ++ (n, v) :: post)) = Some v ->
  let cx := outer in
  let x2 := (cx - 1 / 100)%R in
  let y1 := 0%R in
  let y2 := (outer - inner)%R in
  donutSVG (pre ++ (n, v) :: post) outer inner =
    Some (mkDonut
            [mkPath n
               [ Cmd "M"; Num cx; Num y1;
                 Cmd "A"; Num outer; Num outer; Num 0%R; Num 1%R; Num 1%R;
                   Num x2; Num y1;
                 Cmd "L"; Num x2; Num y2;
                 Cmd "A"; Num inner; Num inner; Num 0%R; Num 1%R; Num 0%R;
                   Num cx; Num y2 ]]
            (outer * 2) (outer * 2) "donut-chart").
Proof.
  intros Hv Hsum cx x2 y1 y2.
  rewrite (donutSVG_unfold _ outer inner v Hsum).
  destruct (reduce_sum_total _ _ Hsum) as [_ Htot].
  rewrite total_app, total_cons in Htot.
  assert (Hpre : Forall (fun e => snd e = 0) pre) by (apply total_zero; lia).
  assert (Hpost : Forall (fun e => snd e = 0) post) by (apply total_zero; lia).
  rewrite sweep_app. cbn [snd].
  rewrite (sweep_zeros v outer inner pre 0 Hpre). cbn [fst snd app].
  rewrite sweep_cons. cbn [snd].
  rewrite body_full by assumption. cbn [fst].
  rewrite (sweep_zeros v outer inner post 0 Hpost). cbn [snd app].
  unfold full_annulus, cx, x2, y1, y2.
  replace (outer - outer)%R with 0%R by ring. reflexivity.
Qed.

End DonutFacts.

Lemma donutSVG_arcs_witness :
  exists d,
    Donut.donutSVG [("success", 2); ("failure", 1); ("pending", 0)] 15 9 = Some d
    /\ map Donut.name (Donut.paths d) = ["success"; "failure"].
Proof.
  destruct (DonutFacts.donutSVG_arcs
              [("success", 2); ("failure", 1); ("pending", 0)] 15 9 3)
    as (d & Hd & Hn & _); [reflexivity | reflexivity |].
  exists d. split; [exact Hd | exact Hn].
Defined.

Lemma donutSVG_full_circle_witness :
  exists d,
    Donut.donutSVG [("pending", 0); ("success", 4); ("failure", 0)] 15 9 = Some d
    /\ map Donut.name (Donut.paths d) = ["success"].
Proof.
  eexists. split.
  - apply (DonutFacts.donutSVG_full_circle
             [("pending", 0)] [("failure", 0)] "success" 4 15 9);
      [discriminate | reflexivity].
  - reflexivity.
Defined.

(* ------------------------------------------------------------------ *)
(** ** Facts about the log panel *)
(* ------------------------------------------------------------------ *)

Module LogsFacts.
Import Logs.

Example trim_spaces : trim [32; 9; 111; 107; 32; 10] = [111; 107].
Proof. reflexivity. Qed.

Example trim_no_break_space : trim [160; 8239; 12288] = [].
Proof. reflexivity. Qed.

Lemma is_empty_true (s : jsstring) : is_empty s = true <-> s = [].
Proof. destruct s; cbn; split; congruence. Qed.

Lemma trimStart_nil (s : jsstring) :
  trimStart s = [] <-> forallb is_white_space s = true.
Proof.
  induction s as [|c s IH]; cbn; [tauto|].
  destruct (is_white_space c); cbn; [exact IH|]. split; discriminate.
Qed.

Lemma trimStart_head (s : jsstring) (c : N) (r : jsstring) :
  trimStart s = c :: r -> is_white_space c = false.
Proof.
  induction s as [|x s IH]; cbn; [discriminate|].
  destruct (is_white_space x) eqn:E; [exact IH|].
  intros [= <- _]. exact E.
Qed.

Lemma forallb_rev {A} (f : A -> bool) (l : list A) :
  forallb f (rev l) = forallb f l.
Proof.
  induction l as [|x l IH]; [reflexivity|]. cbn.
  rewrite forallb_app, IH. cbn. rewrite andb_true_r. apply andb_comm.
Qed.

(** Blank means: white space only. *)
Lemma blank_iff (s : jsstring) : blank s <-> forallb is_white_space s = true.
Proof.
  unfold blank, trim, trimEnd. split.
  - intros H. apply (f_equal (@rev N)) in H. rewrite rev_involutive in H.
    cbn in H. apply trimStart_nil in H. rewrite forallb_rev in H.
    destruct (trimStart s) as [|c r] eqn:E; [now apply trimStart_nil|].
    apply trimStart_head in E. cbn in H. rewrite E in H. discriminate.
  - intros H. apply trimStart_nil in H. rewrite H. reflexivity.
Qed.

Lemma isNoAdditionalInfoToDisplay_spec (props : ICICheckRunLogsProps) :
  isNoAdditionalInfoToDisplay props (output (checkRun props)) = true
  <-> nothing_to_show (checkRun props).
Proof.
  unfold isNoAdditionalInfoToDisplay, isNoOutputText, hasActionsWorkflowLogs,
    nothing_to_show, blank.
  destruct (checkRun props) as [nm [ty ti su tx] wf]. cbn.
  rewrite !andb_true_iff, negb_true_iff. split.
  - intros [[[Hw Ht] Hx] Hs]. repeat split.
    + destruct wf; [discriminate | reflexivity].
    + destruct ty; [discriminate | reflexivity].
    + destruct tx as [t|]; [right | now left].
      exists t. split; [reflexivity | now apply is_empty_true].
    + destruct su as [| |s]; [tauto | tauto |].
      right; right. exists s. split; [reflexivity | now apply is_empty_true].
  - intros (Hw & Ht & Hx & Hs). subst wf ty. repeat split.
    + destruct Hx as [->|(t & -> & Ht)]; [reflexivity | now apply is_empty_true].
    + destruct Hs as [->|[->|(s & -> & Hs)]];
        [reflexivity | reflexivity | now apply is_empty_true].
Qed.

(** C4, as written, fails while the workflows are loading: a check run
    with nothing to show is then rendered as the loading notice, not as
    the placeholder. *)
Lemma logs_placeholder_counterexample :
  nothing_to_show (mkCheck [] (mkOutput Default None Null None) None)
  /\ render (fun s => s)
       (mkProps (mkCheck [] (mkOutput Default None Null None) None) false true)
     = LoadingLogs
  /\ ~ shows (render (fun s => s)
               (mkProps (mkCheck [] (mkOutput Default None Null None) None)
                        false true))
             placeholder.
Proof.
  split; [|split].
  - unfold nothing_to_show. cbn. tauto.
  - reflexivity.
  - intros (a & s & H). cbn in H. discriminate.
Qed.

(** C4, amended.  While [loadingActionWorkflows] is set the panel is
    the loading notice.  Once it is cleared, the placeholder
    "No additional information to display." is shown exactly when the
    check run has no actions workflow run id, its output type is
    [Default], its text is null or blank after trimming and its summary
    is null, undefined or blank after trimming; in every other case the
    result of [renderMetaOutput] takes its place. *)
Theorem logs_placeholder (lower : jsstring -> jsstring)
    (props : ICICheckRunLogsProps) :
  (loadingActionWorkflows props = true -> render lower props = LoadingLogs)
  /\ (loadingActionWorkflows props = false ->
      (shows (render lower props) placeholder
         <-> nothing_to_show (checkRun props))
      /\ (~ nothing_to_show (checkRun props) ->
          shows (render lower props)
                (MetaOutput (renderMetaOutput lower props
                               (output (checkRun props))
                               (name (checkRun props)))))).
Proof.
  unfold render. split; [intros ->; reflexivity|]. intros ->.
  rewrite <- isNoAdditionalInfoToDisplay_spec.
  destruct (isNoAdditionalInfoToDisplay props (output (checkRun props))).
  - split.
    + split; [reflexivity|]. intros _. eexists _, _. reflexivity.
    + intros H. exfalso. now apply H.
  - split.
    + split; [|discriminate]. intros (a & s & H).
      inversion H.
    + intros _. eexists _, _. reflexivity.
Qed.

End LogsFacts.

Lemma logs_placeholder_witness :
  Logs.shows
    (Logs.render (fun s => s)
       (Logs.mkProps
          (Logs.mkCheck [99; 105] (Logs.mkOutput Logs.Default None Logs.Undefined
                                     (Some [32; 10])) None)
          false false))
    Logs.placeholder.
Proof.
  apply (LogsFacts.logs_placeholder (fun s => s)
           (Logs.mkProps
              (Logs.mkCheck [99; 105]
                 (Logs.mkOutput Logs.Default None Logs.Undefined (Some [32; 10]))
                 None)
              false false)).
  - reflexivity.
  - unfold Logs.nothing_to_show, Logs.blank. cbn.
    repeat split; [right; eexists; split; reflexivity | tauto].
Defined.

(* ------------------------------------------------------------------ *)
(** ** Facts about the popover's life cycle *)
(* ------------------------------------------------------------------ *)

Module LifeCycleFacts.
Import Popover.

Section WithHelpers.

Variable adjective : option APICheckConclusion -> string.
Variable lower : string -> string.

Local Abbreviation onStatus := (onStatus adjective lower).
Local Abbreviation statusChanged := (statusChanged adjective lower).
Local Abbreviation componentDidMount := (componentDidMount adjective lower).
Local Abbreviation step := (step adjective lower).
Local Abbreviation reachable := (reachable adjective lower).
Local Abbreviation summary := (getCombinedCheckSummary adjective lower).

Lemma quiet_ret : quiet (ret tt).
Proof. intros w. cbn. auto. Qed.

Lemma quiet_then_onStatus (c : M unit) check :
  quiet c -> quiet (bind c (fun _ => onStatus check)).
Proof.
  intros Hc w. specialize (Hc w). unfold exec, bind in *.
  destruct (c w) as [[] w1]. cbn in *. exact Hc.
Qed.

Lemma quiet_deliveries check (l : list disposable) (c : M unit) :
  quiet c ->
  quiet (fold_left (fun c _ => bind c (fun _ => onStatus check)) l c).
Proof.
  revert c. induction l as [|h l IH]; intros c Hc; cbn [fold_left].
  - exact Hc.
  - apply IH, quiet_then_onStatus, Hc.
Qed.

Lemma statusChanged_quiet check (w : world) :
  disp (exec (statusChanged check) w) = disp w
  /\ statusSubscription (exec (statusChanged check) w) = statusSubscription w
  /\ props (exec (statusChanged check) w) = props w.
Proof.
  unfold Popover.statusChanged, exec.
  apply (quiet_deliveries check (active (disp w)) (ret tt) quiet_ret w).
Qed.

(** With no active subscription a status change reaches nothing. *)
Lemma statusChanged_idle check (w : world) :
  active (disp w) = [] -> exec (statusChanged check) w = w.
Proof.
  intros H. unfold Popover.statusChanged, exec. rewrite H. reflexivity.
Qed.

Lemma unsubscribe_single (w : world) :
  single_subscription w ->
  statusSubscription (exec unsubscribe w) = None
  /\ active (disp (exec unsubscribe w)) = []
  /\ next (disp (exec unsubscribe w)) = next (disp w)
  /\ known (disp (exec unsubscribe w)) = known (disp w)
  /\ props (exec unsubscribe w) = props w
  /\ state (exec unsubscribe w) = state w
  /\ trace (exec unsubscribe w) =
       trace w ++ match statusSubscription w with
                  | Some h => [Dispose h]
                  | None => []
                  end.
Proof.
  unfold single_subscription, unsubscribe, exec, bind, getSubscription.
  destruct w as [p st [h|] [k a n] tr]; cbn; intros ->; cbn.
  - rewrite Nat.eqb_refl. cbn. auto 10.
  - rewrite app_nil_r. auto 10.
Qed.

Lemma subscribe_single (w : world) :
  single_subscription w -> single_subscription (exec subscribe w).
Proof.
  intros H. destruct (unsubscribe_single w H) as (Hs & Ha & _).
  unfold subscribe, exec, bind in *.
  destruct (unsubscribe w) as [[] w1]. cbn in *.
  unfold single_subscription. cbn. rewrite Ha. reflexivity.
Qed.

Lemma onStatus_single check (w : world) :
  single_subscription w -> single_subscription (exec (onStatus check) w).
Proof. intros H. exact H. Qed.

Lemma step_single (e : event) (w : world) :
  single_subscription w -> single_subscription (step e w).
Proof.
  intros H. destruct e; unfold Popover.step, run.
  - unfold Popover.componentDidMount.
    change (single_subscription
              (exec subscribe
                 (exec (onStatus
                          (known (disp w) (repository (props w))
                             (getCommitRef (prNumber (props w)))
                             (branchName (props w))))
                    (exec (tryGetCommitStatus (repository (props w))
                             (getCommitRef (prNumber (props w)))
                             (branchName (props w))) w)))).
    apply subscribe_single, onStatus_single. exact H.
  - now apply subscribe_single.
  - destruct (unsubscribe_single w H) as (Hs & Ha & _).
    unfold single_subscription, componentWillUnmount. now rewrite Hs, Ha.
  - destruct (statusChanged_quiet check w) as (Hd & Hs & _).
    unfold single_subscription. rewrite Hd, Hs. exact H.
Qed.

Lemma reachable_single (w : world) :
  reachable w -> single_subscription w.
Proof.
  induction 1 as [p k n | w e _ IH].
  - reflexivity.
  - now apply step_single.
Qed.

(** C5.  A delivery of a non-null combined check sets [checkRuns] to
    its checks and clears both loading flags; a delivery of [null]
    sets [checkRuns] to the empty list and both flags; in both cases
    [checkRunSummary] is the summary of the delivered value.  The
    constructor starts with both flags set. *)
Theorem onStatus_state (w : world) :
  (forall combined,
      state (exec (onStatus (Some combined)) w) =
        mkState (checks combined) (summary (Some combined)) false false)
  /\ state (exec (onStatus None) w) = mkState [] (summary None) true true
  /\ loadingActionLogs initial_state = true
  /\ loadingActionWorkflows initial_state = true
  /\ (forall check h,
         active (disp w) = [h] ->
         state (exec (statusChanged check) w) =
           state (exec (onStatus check) w)).
Proof.
  repeat split.
  intros check h H. unfold Popover.statusChanged, exec. rewrite H.
  reflexivity.
Qed.

(** C6.  From any reachable state, [componentWillUnmount] disposes
    the subscription the component holds, if it holds one, and clears
    the handle; afterwards no subscription is active and no sequence
    of status changes alters the component. *)
Theorem unmount_unsubscribes (w : world) :
  reachable w ->
  let w' := step Unmount w in
  statusSubscription w' = None
  /\ active (disp w') = []
  /\ trace w' = trace w ++ match statusSubscription w with
                           | Some h => [Dispose h]
                           | None => []
                           end
  /\ forall changes,
       fold_left (fun w0 check => step (StatusChange check) w0) changes w'
       = w'.
Proof.
  intros Hr w'. apply reachable_single in Hr.
  destruct (unsubscribe_single w Hr) as (Hs & Ha & _ & _ & _ & _ & Ht).
  repeat split; try assumption.
  intros changes. induction changes as [|c cs IH]; [reflexivity|].
  cbn [fold_left]. unfold Popover.step at 2, run.
  rewrite statusChanged_idle by exact Ha. exact IH.
Qed.

(** C7.  In every reachable state at most one subscription is active,
    the one whose handle the component holds; and [subscribe] first
    disposes the subscription it holds before it stores the new one. *)
Theorem single_subscription_invariant (w : world) :
  reachable w ->
  (List.length (active (disp w)) <= 1)%nat
  /\ single_subscription w
  /\ (forall e, single_subscription (step e w))
  /\ trace (exec subscribe w) =
       trace w
         ++ match statusSubscription w with
            | Some h => [Dispose h]
            | None => []
            end
         ++ [SubscribeToCommitStatus (repository (props w))
               (getCommitRef (prNumber (props w))) (branchName (props w))
               (next (disp w))]
  /\ statusSubscription (exec subscribe w) = Some (next (disp w))
  /\ active (disp (exec subscribe w)) = [next (disp w)].
Proof.
  intros Hr. pose proof (reachable_single w Hr) as Hs.
  split.
  { unfold single_subscription in Hs. rewrite Hs.
    destruct (statusSubscription w); cbn; lia. }
  split; [exact Hs|].
  split; [intros e; now apply step_single|].
  destruct (unsubscribe_single w Hs) as (Hn & Ha & Hx & _ & Hp & _ & Ht).
  unfold subscribe, exec, bind in *.
  destruct (unsubscribe w) as [[] w1]. cbn in *.
  rewrite Ht, Ha, Hx, Hp, <- app_assoc. auto.
Qed.

(** C8.  [componentDidMount] first asks the dispatcher for the status
    of [refs/pull/<prNumber>/head], then sets the state that
    [onStatus] computes from the answer, and only then (after
    disposing a subscription it might still hold) subscribes to
    status changes of the same ref. *)
Theorem componentDidMount_order (w : world) :
  let p := props w in
  let ref := ("refs/pull/" ++ string_of_N (prNumber p) ++ "/head")%string in
  let found := known (disp w) (repository p) ref (branchName p) in
  let w' := exec componentDidMount w in
  trace w' =
    trace w
      ++ [TryGetCommitStatus (repository p) ref (branchName p);
          SetState (state (exec (onStatus found) w))]
      ++ match statusSubscription w with
         | Some h => [Dispose h]
         | None => []
         end
      ++ [SubscribeToCommitStatus (repository p) ref (branchName p)
            (next (disp w))]
  /\ state w' = state (exec (onStatus found) w)
  /\ statusSubscription w' = Some (next (disp w)).
Proof.
  destruct w as [p st [h|] [k a n] tr]; cbn;
    rewrite <- ?app_assoc; repeat split; reflexivity.
Qed.

(** C10.  [onViewCheckDetails] opens the check run's [htmlUrl] when
    it has one, otherwise the pull request page under the
    repository's [htmlURL], and opens nothing when both are null. *)
Theorem onViewCheckDetails_opens (w : world) (checkRun : IRefCheck) :
  let w' := exec (onViewCheckDetails checkRun) w in
  (forall u, htmlUrl checkRun = Some u ->
             trace w' = trace w ++ [OpenInBrowser u])
  /\ (forall r, htmlUrl checkRun = None ->
                htmlURL (repository (props w)) = Some r ->
                trace w' =
                  trace w ++ [OpenInBrowser
                                (r ++ "/pull/"
                                   ++ string_of_N (prNumber (props w)))%string])
  /\ (htmlUrl checkRun = None ->
      htmlURL (repository (props w)) = None -> w' = w)
  /\ ((exists u, trace w' = trace w ++ [OpenInBrowser u])
      <-> htmlUrl checkRun <> None
          \/ htmlURL (repository (props w)) <> None).
Proof.
  destruct w as [[[r] b n] st s d tr], checkRun as [c u].
  unfold onViewCheckDetails, exec, bind, getProps. cbn.
  repeat split.
  - intros u' ->. reflexivity.
  - intros r' -> ->. reflexivity.
  - intros -> ->. reflexivity.
  - intros [url H]. destruct u as [u|]; [left; discriminate|].
    destruct r as [r|]; [right; discriminate|].
    cbn in H. rewrite <- app_nil_r in H at 1.
    apply app_inv_head in H. discriminate.
  - intros [H|H].
    + destruct u as [u|]; [|contradiction]. eexists. reflexivity.
    + destruct r as [r|]; [|contradiction].
      destruct u; eexists; reflexivity.
Qed.

End WithHelpers.

End LifeCycleFacts.

Lemma unmount_unsubscribes_witness :
  Popover.statusSubscription
    (Popover.step (fun _ => "successful") (fun s => s) Popover.Unmount
       (Popover.step (fun _ => "successful") (fun s => s) Popover.Mount
          (Popover.initial
             (Popover.mkProps (Popover.mkRepo (Some "https://example.com/o/r"))
                              "main" 7)
             (fun _ _ _ => None) 0%nat))) = None.
Proof.
  apply (LifeCycleFacts.unmount_unsubscribes (fun _ => "successful") (fun s => s)
           (Popover.step (fun _ => "successful") (fun s => s) Popover.Mount
              (Popover.initial
                 (Popover.mkProps
                    (Popover.mkRepo (Some "https://example.com/o/r")) "main" 7)
                 (fun _ _ _ => None) 0%nat))).
  apply Popover.reach_step, Popover.reach_initial.
Defined.

Lemma single_subscription_invariant_witness :
  Popover.single_subscription
    (Popover.step (fun _ => "successful") (fun s => s) Popover.Subscribe
       (Popover.step (fun _ => "successful") (fun s => s) Popover.Mount
          (Popover.initial
             (Popover.mkProps (Popover.mkRepo None) "main" 7)
             (fun _ _ _ => None) 0%nat))).
Proof.
  refine (proj1 (proj2 (LifeCycleFacts.single_subscription_invariant
                          (fun _ => "successful") (fun s => s) _ _))).
  apply Popover.reach_step, Popover.reach_step, Popover.reach_initial.
Defined.

Lemma onViewCheckDetails_opens_witness :
  Popover.trace
    (Popover.exec
       (Popover.onViewCheckDetails (Popover.mkCheck None None))
       (Popover.initial
          (Popover.mkProps (Popover.mkRepo (Some "https://example.com/o/r"))
                           "main" 7)
          (fun _ _ _ => None) 0%nat))
  = [Popover.OpenInBrowser "https://example.com/o/r/pull/7"].
Proof.
  exact (proj1 (proj2 (LifeCycleFacts.onViewCheckDetails_opens
           (Popover.initial
              (Popover.mkProps (Popover.mkRepo (Some "https://example.com/o/r"))
                               "main" 7)
              (fun _ _ _ => None) 0%nat)
           (Popover.mkCheck None None)))
           "https://example.com/o/r" eq_refl eq_refl).
Defined.

Lemma onStatus_state_witness :
  Popover.state
    (Popover.exec
       (Popover.statusChanged (fun _ => "successful") (fun s => s) None)
       (Popover.step (fun _ => "successful") (fun s => s) Popover.Mount
          (Popover.initial
             (Popover.mkProps (Popover.mkRepo None) "main" 7)
             (fun _ _ _ => Some (Popover.mkCombined [Popover.mkCheck None None]))
             0%nat)))
  = Popover.mkState [] "" true true.
Proof.
  destruct (LifeCycleFacts.onStatus_state (fun _ => "successful") (fun s => s)
              (Popover.step (fun _ => "successful") (fun s => s) Popover.Mount
                 (Popover.initial
                    (Popover.mkProps (Popover.mkRepo None) "main" 7)
                    (fun _ _ _ =>
                       Some (Popover.mkCombined [Popover.mkCheck None None]))
                    0%nat)))
    as (_ & _ & _ & _ & H).
  rewrite (H None 0%nat); reflexivity.
Defined.

(* ------------------------------------------------------------------ *)
(** ** Facts about the summary line *)
(* ------------------------------------------------------------------ *)

Module SummaryFacts.
Import Popover.

Example getCommitRef_42 : getCommitRef 42 = "refs/pull/42/head".
Proof. reflexivity. Qed.

Example groups_sample :
  groups ["successful"; "failed"; "successful"; "in progress"]
  = [("successful", 2); ("failed", 1); ("in progress", 1)].
Proof. reflexivity. Qed.

Example summary_three_kinds :
  getCombinedCheckSummary
    (fun c => match c with
              | Some Success => "Successful"
              | Some Failure => "Failed"
              | _ => "In Progress"
              end)
    (fun s => s)
    (Some (mkCombined [mkCheck (Some Success) None; mkCheck (Some Failure) None;
                       mkCheck (Some Success) None; mkCheck None None]))
  = "2 Successful, 1 Failed, and 1 In Progress checks".
Proof. reflexivity. Qed.

Example summary_single_check :
  getCombinedCheckSummary (fun _ => "Successful") (fun s => s)
    (Some (mkCombined [mkCheck (Some Success) None]))
  = "1 Successful check".
Proof. reflexivity. Qed.

Lemma distinct_In (l : list string) (y : string) :
  In y (distinct l) <-> In y l.
Proof.
  induction l as [|x l IH]; cbn; [tauto|].
  rewrite filter_In, IH, negb_true_iff, String.eqb_neq.
  destruct (string_dec x y) as [E|E]; [tauto|].
  assert (y <> x) by congruence. tauto.
Qed.

Lemma distinct_NoDup (l : list string) : NoDup (distinct l).
Proof.
  induction l as [|x l IH]; cbn; constructor.
  - rewrite filter_In, negb_true_iff, String.eqb_neq. tauto.
  - now apply NoDup_filter.
Qed.

Lemma distinct_snoc (l : list string) (a : string) :
  distinct (l ++ [a]) =
    if in_dec string_dec a l then distinct l else distinct l ++ [a].
Proof.
  induction l as [|x l IH]; cbn [app distinct]; [reflexivity|].
  rewrite IH. destruct (in_dec string_dec a l) as [Hin|Hout].
  - destruct (in_dec string_dec a (x :: l)) as [_|H]; [reflexivity|].
    exfalso. apply H. now right.
  - rewrite filter_app. cbn [filter].
    destruct (String.eqb_spec a x) as [->|Hne]; cbn [negb].
    + destruct (in_dec string_dec x (x :: l)) as [_|H];
        [now rewrite app_nil_r | exfalso; apply H; now left].
    + destruct (in_dec string_dec a (x :: l)) as [[H|H]|_];
        [congruence | contradiction | reflexivity].
Qed.

Lemma occurrences_snoc (k a : string) (l : list string) :
  occurrences k (l ++ [a]) =
    occurrences k l + (if String.eqb k a then 1 else 0).
Proof.
  unfold occurrences. rewrite count_occ_app. cbn [count_occ].
  destruct (string_dec a k) as [->|Hne].
  - rewrite String.eqb_refl. lia.
  - destruct (String.eqb_spec k a) as [->|_]; [contradiction | lia].
Qed.

Lemma occurrences_absent (a : string) (l : list string) :
  ~ In a l -> occurrences a l = 0.
Proof.
  intros H. unfold occurrences.
  rewrite (proj1 (count_occ_not_In string_dec l a) H). reflexivity.
Qed.

Section Keyed.

Variable f : string -> N.

Lemma map_get_keyed (a : string) (D : list string) :
  map_get a (map (fun k => (k, f k)) D) =
    if in_dec string_dec a D then Some (f a) else None.
Proof.
  induction D as [|k D IH]; cbn [map map_get]; [reflexivity|].
  destruct (String.eqb_spec k a) as [->|Hne].
  - destruct (in_dec string_dec a (a :: D)) as [_|H];
      [reflexivity | exfalso; apply H; now left].
  - rewrite IH. destruct (in_dec string_dec a D) as [Hin|Hout].
    + destruct (in_dec string_dec a (k :: D)) as [_|H];
        [reflexivity | exfalso; apply H; now right].
    + destruct (in_dec string_dec a (k :: D)) as [[H|H]|_];
        [congruence | contradiction | reflexivity].
Qed.

Lemma map_set_fresh (a : string) (v : N) (D : list string) :
  ~ In a D ->
  map_set a v (map (fun k => (k, f k)) D) =
    map (fun k => (k, f k)) D ++ [(a, v)].
Proof.
  induction D as [|k D IH]; intros H; cbn [map map_set app]; [reflexivity|].
  destruct (String.eqb_spec k a) as [->|Hne].
  - exfalso. apply H. now left.
  - rewrite IH; [reflexivity|]. intros Hin. apply H. now right.
Qed.

Lemma map_set_present (a : string) (v : N) (D : list string) :
  NoDup D -> In a D ->
  map_set a v (map (fun k => (k, f k)) D) =
    map (fun k => (k, if String.eqb k a then v else f k)) D.
Proof.
  induction D as [|k D IH]; intros Hnd Hin; [contradiction|].
  inversion Hnd as [|? ? Hk HD]; subst. cbn [map map_set].
  destruct (String.eqb_spec k a) as [->|Hne].
  - f_equal. apply map_ext_in. intros k' Hk'.
    destruct (String.eqb_spec k' a) as [->|_]; [contradiction | reflexivity].
  - f_equal. apply IH; [assumption|].
    destruct Hin as [H|H]; [congruence | exact H].
Qed.

End Keyed.

Lemma groups_snoc (l : list string) (a : string) :
  groups (l ++ [a]) = bump a (groups l).
Proof.
  unfold groups, bump. rewrite distinct_snoc, map_get_keyed.
  destruct (in_dec string_dec a l) as [Hin|Hout].
  - destruct (in_dec string_dec a (distinct l)) as [_|H];
      [|exfalso; apply H; now apply distinct_In].
    rewrite map_set_present
      by (apply distinct_NoDup || now apply distinct_In).
    apply map_ext. intros k. rewrite occurrences_snoc.
    destruct (String.eqb_spec k a) as [->|_]; f_equal; lia.
  - destruct (in_dec string_dec a (distinct l)) as [H|_];
      [exfalso; apply Hout; now apply distinct_In|].
    rewrite map_set_fresh by (now rewrite distinct_In).
    rewrite map_app. cbn [map]. f_equal.
    + apply map_ext_in. intros k Hk. rewrite occurrences_snoc.
      destruct (String.eqb_spec k a) as [->|_].
      * exfalso. apply Hout. now apply distinct_In.
      * f_equal. lia.
    + rewrite occurrences_snoc, String.eqb_refl, occurrences_absent
        by assumption. reflexivity.
Qed.

Lemma tally_groups (l : list string) :
  fold_left (fun m a => bump a m) l [] = groups l.
Proof.
  induction l as [|a l IH] using rev_ind; [reflexivity|].
  rewrite fold_left_app. cbn [fold_left]. rewrite IH.
  symmetry. apply groups_snoc.
Qed.

Lemma slice_init_removelast {A} (l : list A) : slice_init l = removelast l.
Proof.
  unfold slice_init. rewrite Nat.sub_1_r. symmetry.
  apply removelast_firstn_len.
Qed.

Lemma slice_last_last {A} (l : list A) (d : A) :
  l <> [] -> slice_last l = [last l d].
Proof.
  intros H. destruct (exists_last H) as (l' & x & ->).
  unfold slice_last. rewrite length_app, last_last. cbn [List.length].
  replace (List.length l' + 1 - 1)%nat with (List.length l' + 0)%nat by lia.
  rewrite skipn_app, Nat.add_0_r, skipn_all. cbn.
  replace (List.length l' - List.length l')%nat with 0%nat by lia.
  reflexivity.
Qed.

Lemma distinct_constant (l : list string) (a : string) :
  l <> [] -> (forall x, In x l -> x = a) -> distinct l = [a].
Proof.
  induction l as [|x l IH]; intros Hne Hall; [contradiction|].
  cbn [distinct]. rewrite (Hall x) by now left. f_equal.
  destruct l as [|y l]; [reflexivity|].
  rewrite IH; [|discriminate | intros z Hz; apply Hall; now right].
  cbn. now rewrite String.eqb_refl.
Qed.

Lemma occurrences_constant (l : list string) (a : string) :
  (forall x, In x l -> x = a) -> occurrences a l = N.of_nat (List.length l).
Proof.
  intros Hall. unfold occurrences. f_equal.
  induction l as [|x l IH]; [reflexivity|]. cbn [count_occ List.length].
  destruct (string_dec x a) as [_|Hne].
  - f_equal. apply IH. intros z Hz. apply Hall. now right.
  - exfalso. apply Hne, Hall. now left.
Qed.

Section WithHelpers.

Variable adjective : option APICheckConclusion -> string.
Variable lower : string -> string.

Local Abbreviation summary := (getCombinedCheckSummary adjective lower).
Local Abbreviation adjectives := (adjectives adjective lower).
Local Abbreviation items := (items adjective lower).

Lemma conclusionMap_groups (checks : list IRefCheck) :
  conclusionMap adjective lower checks = groups (adjectives checks).
Proof.
  rewrite <- tally_groups. unfold conclusionMap, Popover.adjectives.
  generalize (@nil (string * N)) as acc.
  induction checks as [|c checks IH]; intros acc; [reflexivity|].
  cbn [fold_left map]. apply IH.
Qed.

Lemma conclusionMap_nonempty (checks : list IRefCheck) :
  checks <> [] -> conclusionMap adjective lower checks <> [].
Proof.
  rewrite conclusionMap_groups. destruct checks; [contradiction|].
  discriminate.
Qed.

(** C9.  The summary is empty for a null combined check and for an
    empty list of checks.  When all checks have the same adjective it
    is "<count> <adjective> check", with "checks" exactly when the
    count exceeds 1.  When several adjectives occur it is the
    "<count> <adjective>" items joined by ", ", then ", and " and the
    last item, then " checks". *)
Theorem getCombinedCheckSummary_spec :
  summary None = ""
  /\ summary (Some (mkCombined [])) = ""
  /\ forall checks,
       checks <> [] ->
       (forall a,
           (forall c, In c checks -> lower (adjective (conclusion c)) = a) ->
           let count := N.of_nat (List.length checks) in
           summary (Some (mkCombined checks)) =
             (string_of_N count ++ " " ++ a ++ " "
                ++ (if (1 <? count)%N then "checks" else "check"))%string)
       /\ ((1 < List.length (distinct (adjectives checks)))%nat ->
           summary (Some (mkCombined checks)) =
             (join ", " (removelast (items checks)) ++ ", and "
                ++ last (items checks) "" ++ " checks")%string).
Proof.
  split; [reflexivity|]. split; [reflexivity|].
  intros checks Hne.
  assert (Hlen : (List.length checks =? 0)%nat = false).
  { destruct checks; [contradiction | reflexivity]. }
  unfold getCombinedCheckSummary. cbn [Popover.checks].
  rewrite Hlen, conclusionMap_groups.
  assert (Hg : List.length (groups (adjectives checks)) =
               List.length (distinct (adjectives checks)))
    by (unfold groups; apply length_map).
  rewrite length_map, Hg.
  split.
  - intros a Hall.
    assert (Hadj : forall x, In x (adjectives checks) -> x = a).
    { intros x Hx. apply in_map_iff in Hx.
      destruct Hx as (c & <- & Hc). now apply Hall. }
    assert (Hne' : adjectives checks <> []).
    { destruct checks; [contradiction | discriminate]. }
    unfold groups.
    rewrite (distinct_constant _ a Hne' Hadj). cbn [List.length map].
    change (1 <? 1)%nat with false. cbn iota.
    rewrite (occurrences_constant _ a Hadj).
    unfold Popover.adjectives. rewrite length_map. reflexivity.
  - intros Hmany.
    destruct (Nat.ltb_spec 1 (List.length (distinct (adjectives checks))))
      as [_|H]; [|lia].
    rewrite map_map.
    replace (map _ (groups (adjectives checks))) with (items checks).
    2:{ unfold Popover.items. apply map_ext. intros [a n]. reflexivity. }
    rewrite slice_init_removelast.
    rewrite (slice_last_last (items checks) "").
    + reflexivity.
    + unfold Popover.items, groups. intros E.
      apply (f_equal (@List.length string)) in E.
      rewrite !length_map in E. cbn in E. lia.
Qed.

End WithHelpers.

End SummaryFacts.

Lemma getCombinedCheckSummary_spec_witness :
  Popover.getCombinedCheckSummary
    (fun c => match c with Some Popover.Success => "Successful" | _ => "Failed" end)
    (fun s => s)
    (Some (Popover.mkCombined
             [Popover.mkCheck (Some Popover.Success) None;
              Popover.mkCheck (Some Popover.Failure) None;
              Popover.mkCheck (Some Popover.Success) None]))
  = "2 Successful, and 1 Failed checks".
Proof.
  refine (proj2 (proj2 (proj2
            (SummaryFacts.getCombinedCheckSummary_spec
               (fun c => match c with
                         | Some Popover.Success => "Successful"
                         | _ => "Failed"
                         end)
               (fun s => s)))
            [Popover.mkCheck (Some Popover.Success) None;
             Popover.mkCheck (Some Popover.Failure) None;
             Popover.mkCheck (Some Popover.Success) None] _) _).
  - discriminate.
  - cbn. lia.
Defined.

(* ------------------------------------------------------------------ *)
(** ** Facts about the completeness indicator *)
(* ------------------------------------------------------------------ *)

Module IndicatorFacts.
Import Donut Popover.

(** C3.  [donutSVG] fails on an empty counts map.  On a non-empty map
    it returns a result whose height and width are twice the outer
    radius, and whose list of paths is empty when every count is zero.
    [renderCompletenessIndicator] answers with the spinner, without
    reaching [donutSVG], when [checkRuns] is empty; so it cannot fail as
    long as the count map of a non-empty list of check runs is
    non-empty. *)
Theorem donutSVG_total_on_nonempty (outer inner : R) :
  donutSVG [] outer inner = None
  /\ (forall m,
        m <> [] ->
        exists d,
          donutSVG m outer inner = Some d
          /\ height d = (outer * 2)%R
          /\ width d = (outer * 2)%R
          /\ (Forall (fun e => snd e = 0) m -> paths d = []))
  /\ (forall countMap st,
        checkRuns st = [] ->
        renderCompletenessIndicator countMap st = Some SpinOcticon)
  /\ (forall countMap st,
        (forall runs, runs <> [] -> countMap runs <> []) ->
        renderCompletenessIndicator countMap st <> None).
Proof.
  split; [reflexivity|]. split; [|split].
  - intros m Hm. destruct (DonutFacts.reduce_sum_nonempty m Hm) as [s Hs].
    rewrite (DonutFacts.donutSVG_unfold m outer inner s Hs).
    eexists. split; [reflexivity|]. cbn [height width paths].
    repeat split. intros Hz.
    now rewrite (DonutFacts.sweep_zeros s outer inner m 0 Hz).
  - intros countMap st H. unfold renderCompletenessIndicator.
    rewrite H. reflexivity.
  - intros countMap st Hmap. unfold renderCompletenessIndicator.
    destruct (checkRuns st) as [|c runs] eqn:E; [discriminate|].
    cbn [List.length Nat.eqb].
    destruct (negb (existsb _ (c :: runs))); [discriminate|].
    destruct (negb (existsb _ (c :: runs))); [discriminate|].
    assert (Hne : countMap (c :: runs) <> []) by (apply Hmap; discriminate).
    destruct (DonutFacts.reduce_sum_nonempty _ Hne) as [s Hs].
    rewrite (DonutFacts.donutSVG_unfold _ 15 9 s Hs). discriminate.
Qed.

End IndicatorFacts.

Lemma donutSVG_total_on_nonempty_witness :
  exists d,
    Donut.donutSVG [("success", 0); ("failure", 0)] 15 9 = Some d
    /\ Donut.paths d = [].
Proof.
  destruct (proj1 (proj2 (IndicatorFacts.donutSVG_total_on_nonempty 15 9))
              [("success", 0); ("failure", 0)])
    as (d & Hd & _ & _ & Hp); [discriminate|].
  exists d. split; [exact Hd|]. apply Hp. repeat constructor.
Defined.

(* ------------------------------------------------------------------ *)
(** ** Further facts about the donut path generator *)
(* ------------------------------------------------------------------ *)

Module DonutGeometry.
Import Donut DonutShape DonutFacts.







End DonutGeometry.

Module DonutPaths.
Import Donut DonutShape DonutFacts.

Lemma step_ring (sum : N) (outer inner : R) (c : N) (e : string * N) :
  Forall (fun p => ring_path outer inner (path p))
         (snd (donut_step sum outer inner (outer * 2 / 2) (outer * 2 / 2)
                          (c, []) e)).
Proof.
  unfold donut_step. destruct e as [n v].
  destruct (v =? 0); [constructor|].
  destruct (Qeq_bool (N2Q v / N2Q sum) 1); cbn [snd app]; constructor;
    try constructor; cbn [path].
  - exists true. do 8 eexists. reflexivity.
  - unfold large_arc, scale. cbn [map app].
    exists (Qgt_bool (N2Q v / N2Q sum) (1 # 2)). do 8 eexists. reflexivity.
Qed.

Lemma sweep_ring (sum : N) (outer inner : R) (m : counts) (c : N) :
  Forall (fun p => ring_path outer inner (path p))
         (snd (sweep sum outer inner m c)).
Proof.
  revert c. induction m as [|e m IH]; intros c; [constructor|].
  rewrite sweep_cons. cbn [snd]. apply Forall_app. split.
  - apply step_ring.
  - apply IH.
Qed.

(** Every path that [donutSVG] returns is a ring path: the commands
    M, A, L, A with 22 tokens in all, the outer arc clockwise and the
    inner arc counter-clockwise, both with the same large-arc flag. *)
Theorem donutSVG_ring_paths (m : counts) (outer inner : R) (d : donut) :
  donutSVG m outer inner = Some d ->
  Forall (fun p => ring_path outer inner (path p)
                   /\ List.length (path p) = 22%nat)
         (paths d).
Proof.
  intros H. destruct m as [|e m]; [discriminate|].
  destruct (reduce_sum_nonempty (e :: m)) as [s Hs]; [discriminate|].
  rewrite (donutSVG_unfold _ outer inner s Hs) in H. injection H as <-.
  cbn [paths]. eapply Forall_impl; [|apply sweep_ring].
  intros p Hp. split; [exact Hp|].
  destruct Hp as (l & x0 & y0 & x1 & y1 & x2 & y2 & x3 & y3 & ->).
  reflexivity.
Qed.

Lemma sweep_skip_zeros (sum : N) (outer inner : R) (m : counts) (c : N) :
  sweep sum outer inner (filter nonzero m) c = sweep sum outer inner m c.
Proof.
  revert c. induction m as [|[n v] m IH]; intros c; [reflexivity|].
  cbn [filter]. unfold nonzero at 1. cbn [snd].
  destruct (N.eqb_spec v 0) as [->|Hv]; cbn [negb].
  - rewrite (sweep_cons sum outer inner (n, 0) m c), body_zero.
    cbn [fst snd app]. rewrite IH. now destruct (sweep sum outer inner m c).
  - rewrite !sweep_cons, !IH. reflexivity.
Qed.

Lemma total_skip_zeros (m : counts) : total (filter nonzero m) = total m.
Proof.
  induction m as [|[n v] m IH]; [reflexivity|].
  cbn [filter]. unfold nonzero at 1. cbn [snd].
  destruct (N.eqb_spec v 0) as [->|Hv]; cbn [negb];
    rewrite ?total_cons, IH; reflexivity.
Qed.

Lemma nonzero_survives (m : counts) :
  (exists e, In e m /\ snd e <> 0) -> filter nonzero m <> [].
Proof.
  intros (e & Hin & Hv) E.
  assert (H : In e (filter nonzero m)).
  { apply filter_In. split; [exact Hin|]. unfold nonzero.
    now destruct (N.eqb_spec (snd e) 0). }
  rewrite E in H. contradiction.
Qed.

(** Categories with count 0 can be dropped from the map without
    changing the result, as long as some count is not 0. *)
Theorem donutSVG_skip_zeros (m : counts) (outer inner : R) :
  (exists e, In e m /\ snd e <> 0) ->
  donutSVG (filter nonzero m) outer inner = donutSVG m outer inner.
Proof.
  intros H. pose proof (nonzero_survives m H) as Hf.
  assert (Hm : m <> []) by (destruct H as (e & Hin & _); now destruct m).
  destruct (reduce_sum_nonempty _ Hf) as [s1 H1].
  destruct (reduce_sum_nonempty _ Hm) as [s2 H2].
  rewrite (donutSVG_unfold _ outer inner s1 H1).
  rewrite (donutSVG_unfold _ outer inner s2 H2).
  apply reduce_sum_total in H1, H2. destruct H1 as [_ ->], H2 as [_ ->].
  rewrite total_skip_zeros, sweep_skip_zeros. reflexivity.
Qed.

(** On any non-empty map, also one whose counts are all 0, the paths
    are named after the categories with a nonzero count, in order; the
    list of paths is empty exactly when every count is 0. *)
Theorem donutSVG_names (m : counts) (outer inner : R) :
  m <> [] ->
  exists d,
    donutSVG m outer inner = Some d
    /\ map name (paths d) = map fst (filter nonzero m)
    /\ (paths d = [] <-> Forall (fun e => snd e = 0) m).
Proof.
  intros Hm. destruct (reduce_sum_nonempty m Hm) as [s Hs].
  rewrite (donutSVG_unfold m outer inner s Hs). eexists.
  split; [reflexivity|]. cbn [paths].
  destruct (reduce_sum_total m s Hs) as [_ Htot].
  destruct (N.eq_dec s 0) as [E|Hpos].
  - assert (Hz : Forall (fun e => snd e = 0) m)
      by (apply total_zero; congruence).
    rewrite (sweep_zeros s outer inner m 0 Hz). cbn [snd map]. split.
    + clear - Hz. induction Hz as [|[n v] m Hv _ IH]; [reflexivity|].
      cbn [filter]. unfold nonzero at 1. cbn in Hv. subst v. exact IH.
    + tauto.
  - pose proof (sweep_names s outer inner Hpos m 0) as Hn.
    split; [exact Hn|]. split.
    + intros E. rewrite E in Hn. cbn in Hn.
      apply Forall_forall. intros e He.
      destruct (N.eq_dec (snd e) 0) as [|Hv]; [assumption|]. exfalso.
      assert (Hin : In (fst e) (map fst (filter nonzero m))).
      { apply in_map, filter_In. split; [exact He|]. unfold nonzero.
        now destruct (N.eqb_spec (snd e) 0). }
      rewrite <- Hn in Hin. contradiction.
    + intros Hz. apply total_zero in Hz. congruence.
Qed.



End DonutPaths.

(* ------------------------------------------------------------------ *)
(** ** Further facts about the log panel *)
(* ------------------------------------------------------------------ *)

Module LogsContent.
Import Logs LogsFacts.

Lemma jsstring_eqb_refl (s : jsstring) : jsstring_eqb s s = true.
Proof.
  induction s as [|c s IH]; [reflexivity|]. cbn. now rewrite N.eqb_refl.
Qed.

Lemma is_empty_false (s : jsstring) : is_empty s = false <-> s <> [].
Proof. destruct s; cbn; split; congruence. Qed.

Lemma not_blank_nonempty (s : jsstring) : ~ blank s -> s <> [].
Proof. intros H ->. apply H. reflexivity. Qed.

Lemma getNonActionsOutputMD_null_iff (o : IRefCheckOutput) :
  getNonActionsOutputMD o = None
  <-> (summary o = Null \/ summary o = Undefined
       \/ exists s, summary o = Value s /\ blank s)
      /\ (type o = Actions \/ text o = None
          \/ exists t, text o = Some t /\ blank t).
Proof.
  unfold getNonActionsOutputMD, blank. destruct o as [ty ti su tx]. cbn.
  split.
  - intros H.
    destruct (is_empty _) eqn:E in H; [|discriminate].
    apply is_empty_true, app_eq_nil in E. destruct E as [E1 E2]. split.
    + destruct su as [| |s]; [tauto | tauto |]. right; right.
      exists s. split; [reflexivity|].
      destruct (is_empty (trim s)) eqn:Es; [now apply is_empty_true|].
      subst s. discriminate.
    + destruct ty; [tauto|]. destruct tx as [t|]; [|tauto].
      right; right. exists t. split; [reflexivity | exact E2].
  - intros [Hs Ht].
    assert (E1 : match su with
                 | Value s => if is_empty (trim s) then [] else s
                 | _ => []
                 end = []).
    { destruct Hs as [->|[->|(s & -> & Hs)]]; [reflexivity | reflexivity|].
      now rewrite Hs. }
    assert (E2 : match ty, tx with
                 | Default, Some t => trim t
                 | _, _ => []
                 end = []).
    { destruct ty; [reflexivity|].
      destruct Ht as [Ht|[->|(t & -> & Ht)]];
        [discriminate | reflexivity | exact Ht]. }
    rewrite E1, E2. reflexivity.
Qed.

Lemma getNonActionsOutputMD_nonempty (o : IRefCheckOutput) (md : jsstring) :
  getNonActionsOutputMD o = Some md -> md <> [].
Proof.
  unfold getNonActionsOutputMD. intros H.
  destruct (is_empty _) eqn:E in H; [discriminate|].
  injection H as <-. now apply is_empty_false.
Qed.

(** [getNonActionsOutputMD] returns null exactly when the summary is
    absent or blank and there is no text to add (the output is of type
    [Actions], or its text is null or blank); what it returns otherwise
    is never the empty string. *)
Theorem getNonActionsOutputMD_null (o : IRefCheckOutput) :
  (getNonActionsOutputMD o = None
   <-> (summary o = Null \/ summary o = Undefined
        \/ exists s, summary o = Value s /\ blank s)
       /\ (type o = Actions \/ text o = None
           \/ exists t, text o = Some t /\ blank t))
  /\ (forall md, getNonActionsOutputMD o = Some md -> md <> []).
Proof.
  split; [apply getNonActionsOutputMD_null_iff|].
  intros md. apply getNonActionsOutputMD_nonempty.
Qed.

(** When the placeholder is shown it is all the panel shows: no
    markdown comes with it and the panel is not an actions panel. *)
Theorem placeholder_alone (lower : jsstring -> jsstring)
    (props : ICICheckRunLogsProps) :
  shows (render lower props) placeholder ->
  render lower props = LogsPanel false placeholder (NonActionsLogOutput None).
Proof.
  intros (a & s & H). unfold render in *.
  destruct (loadingActionWorkflows props); [discriminate|].
  destruct (isNoAdditionalInfoToDisplay props (output (checkRun props)))
    eqn:E; [|discriminate].
  clear H. apply isNoAdditionalInfoToDisplay_spec in E.
  destruct E as (Hw & Ht & Hx & Hs).
  unfold hasActionsWorkflowLogs. rewrite Hw.
  unfold renderNonActionsLogOutput. rewrite Ht. cbn [type_eqb].
  assert (Hmd : getNonActionsOutputMD (output (checkRun props)) = None).
  { apply getNonActionsOutputMD_null_iff. split; [exact Hs | tauto]. }
  rewrite Hmd. reflexivity.
Qed.

Lemma render_loaded (lower : jsstring -> jsstring)
    (props : ICICheckRunLogsProps) :
  loadingActionWorkflows props = false ->
  actionsWorkflowRunId (checkRun props) = None ->
  render lower props =
    LogsPanel false
      (if isNoAdditionalInfoToDisplay props (output (checkRun props))
       then placeholder
       else MetaOutput (renderMetaOutput lower props (output (checkRun props))
                          (name (checkRun props))))
      (NonActionsLogOutput
         (renderNonActionsLogOutput (output (checkRun props)))).
Proof.
  intros Hl Hw. unfold render, hasActionsWorkflowLogs.
  rewrite Hl, Hw. reflexivity.
Qed.

(** For an output of type [Default] on a run without workflow run id,
    once loaded, the placeholder stands exactly where there is no
    markdown to show: the panel shows one of the two, never both and
    never neither. *)
Theorem default_placeholder_or_markdown (lower : jsstring -> jsstring)
    (props : ICICheckRunLogsProps) :
  loadingActionWorkflows props = false ->
  actionsWorkflowRunId (checkRun props) = None ->
  type (output (checkRun props)) = Default ->
  exists first md,
    render lower props = LogsPanel false first (NonActionsLogOutput md)
    /\ (first = placeholder <-> md = None)
    /\ (forall text, md = Some text -> text <> []).
Proof.
  intros Hl Hw Ht. rewrite (render_loaded lower props Hl Hw).
  eexists _, _. split; [reflexivity|].
  unfold renderNonActionsLogOutput. rewrite Ht. cbn [type_eqb].
  split; [|intros text; apply getNonActionsOutputMD_nonempty].
  rewrite getNonActionsOutputMD_null_iff.
  destruct (isNoAdditionalInfoToDisplay props (output (checkRun props))) eqn:E.
  - apply isNoAdditionalInfoToDisplay_spec in E.
    destruct E as (_ & _ & Hx & Hs). split; [|reflexivity].
    intros _. split; [exact Hs | tauto].
  - split; [discriminate|]. intros [Hs Hx]. exfalso.
    apply not_true_iff_false in E. apply E.
    apply isNoAdditionalInfoToDisplay_spec. repeat split; try assumption.
    destruct Hx as [Hx|Hx]; [congruence | exact Hx].
Qed.

(** A summary that is not blank is rendered once, on a run without
    workflow run id: for an output of type [Actions] trimmed in the meta
    block, with no markdown next to it; for an output of type [Default]
    at the head of the markdown, untrimmed, and not in the meta block. *)
Theorem summary_rendered_once (lower : jsstring -> jsstring)
    (props : ICICheckRunLogsProps) (s : jsstring) :
  loadingActionWorkflows props = false ->
  actionsWorkflowRunId (checkRun props) = None ->
  summary (output (checkRun props)) = Value s ->
  ~ blank s ->
  exists head main,
    render lower props =
      match type (output (checkRun props)) with
      | Actions =>
          LogsPanel false (MetaOutput (Some (mkMeta head (Some (trim s)))))
                    (NonActionsLogOutput None)
      | Default =>
          LogsPanel false (MetaOutput (Some (mkMeta head None)))
                    (NonActionsLogOutput (Some (s ++ main)))
      end.
Proof.
  intros Hl Hw Hs Hb. rewrite (render_loaded lower props Hl Hw).
  assert (Hne : is_empty (trim s) = false).
  { apply not_true_iff_false. intros E. apply Hb. now apply is_empty_true. }
  assert (Hinfo : isNoAdditionalInfoToDisplay props (output (checkRun props))
                  = false).
  { apply not_true_iff_false. intros E.
    apply isNoAdditionalInfoToDisplay_spec in E.
    destruct E as (_ & _ & _ & [E|[E|(s' & E & Hs')]]); congruence. }
  rewrite Hinfo.
  unfold renderMetaOutput, renderNonActionsLogOutput, getNonActionsOutputMD,
    hasActionsWorkflowLogs.
  rewrite Hw, Hs, Hne. cbn [negb andb].
  destruct (type (output (checkRun props))); cbn [type_eqb andb].
  - rewrite Hne. cbn [negb]. eexists _, []. reflexivity.
  - rewrite andb_false_r.
    assert (Hs0 : s <> []) by (now apply not_blank_nonempty).
    destruct s as [|c s']; [contradiction|]. cbn [app is_empty].
    eexists _, _. reflexivity.
Qed.

(** The title is shown as a heading only when it is not blank and,
    trimmed, differs from the trimmed name of the check run. *)
Theorem heading_shown (lower : jsstring -> jsstring)
    (props : ICICheckRunLogsProps) (o : IRefCheckOutput)
    (checkRunName : jsstring) (m : meta_output) (t : jsstring) :
  renderMetaOutput lower props o checkRunName = Some m ->
  heading m = Some t ->
  title o = Some t /\ ~ blank t /\ trim t <> trim checkRunName.
Proof.
  unfold renderMetaOutput. destruct (hasActionsWorkflowLogs props);
    [discriminate|].
  intros [= <-]. cbn [heading]. destruct (title o) as [t'|]; [|discriminate].
  destruct (is_empty (trim t')) eqn:E; cbn [negb andb]; [discriminate|].
  destruct (jsstring_eqb _ _) eqn:Eq; cbn [negb]; [discriminate|].
  intros [= ->]. split; [reflexivity|]. split.
  - unfold blank. now apply is_empty_false.
  - intros H. rewrite H, jsstring_eqb_refl in Eq. discriminate.
Qed.

(** A run with an actions workflow run id, once loaded, shows the
    actions logs and nothing else: neither the placeholder nor a meta
    block nor markdown. *)
Theorem workflow_run_shows_action_logs (lower : jsstring -> jsstring)
    (props : ICICheckRunLogsProps) (id : N) :
  loadingActionWorkflows props = false ->
  actionsWorkflowRunId (checkRun props) = Some id ->
  render lower props =
    LogsPanel true (MetaOutput None)
              (ActionLogs (output (checkRun props)) (loadingActionLogs props)).
Proof.
  intros Hl Hw.
  unfold render, isNoAdditionalInfoToDisplay, isNoOutputText, renderMetaOutput,
    hasActionsWorkflowLogs.
  rewrite Hl, Hw. reflexivity.
Qed.


End LogsContent.

(* ------------------------------------------------------------------ *)
(** ** Further facts about the popover in use *)
(* ------------------------------------------------------------------ *)

Module PopoverInUse.
Import Popover PopoverView LifeCycleFacts.

Lemma subscribed_app (a b : list effect) :
  subscribed (a ++ b) = subscribed a ++ subscribed b.
Proof.
  induction a as [|e a IH]; [reflexivity|].
  destruct e; cbn; rewrite IH; reflexivity.
Qed.

Lemma disposed_app (a b : list effect) :
  disposed (a ++ b) = disposed a ++ disposed b.
Proof.
  induction a as [|e a IH]; [reflexivity|].
  destruct e; cbn; rewrite IH; reflexivity.
Qed.

Lemma opened_app (a b : list effect) :
  opened (a ++ b) = opened a ++ opened b.
Proof.
  induction a as [|e a IH]; [reflexivity|].
  destruct e; cbn; rewrite IH; reflexivity.
Qed.

Section InUse.

Variable adjective : option APICheckConclusion -> string.
Variable lower : string -> string.
Variable IAPIWorkflowJobStep : Type.
Variable getCheckRunStepURL :
  IRefCheck -> IAPIWorkflowJobStep -> GitHubRepository -> N -> option string.

Local Abbreviation summary := (getCombinedCheckSummary adjective lower).
Local Abbreviation onStatus := (onStatus adjective lower).
Local Abbreviation statusChanged := (statusChanged adjective lower).
Local Abbreviation step := (step adjective lower).
Local Abbreviation onViewJobStep :=
  (onViewJobStep IAPIWorkflowJobStep getCheckRunStepURL).
Local Abbreviation act :=
  (act adjective lower IAPIWorkflowJobStep getCheckRunStepURL).
Local Abbreviation in_use :=
  (in_use adjective lower IAPIWorkflowJobStep getCheckRunStepURL).

Local Abbreviation delivered := (delivered adjective lower).

Lemma onStatus_exec check (w : world) :
  exec (onStatus check) w =
    mkWorld (props w) (delivered check) (statusSubscription w) (disp w)
            (trace w ++ [SetState (delivered check)]).
Proof. reflexivity. Qed.

Lemma statusChanged_exec check (w : world) :
  single_subscription w ->
  exec (statusChanged check) w =
    match statusSubscription w with
    | Some _ => exec (onStatus check) w
    | None => w
    end.
Proof.
  unfold single_subscription, Popover.statusChanged, exec. intros ->.
  destruct (statusSubscription w); reflexivity.
Qed.

Lemma unsubscribe_exec (w : world) :
  single_subscription w ->
  exec unsubscribe w =
    mkWorld (props w) (state w) None
            (mkDispatcher (known (disp w)) [] (next (disp w)))
            (trace w ++ match statusSubscription w with
                        | Some h => [Dispose h]
                        | None => []
                        end).
Proof.
  unfold single_subscription, unsubscribe, exec, bind, getSubscription.
  destruct w as [p st [h|] [k a n] tr]; cbn; intros ->; cbn.
  - now rewrite Nat.eqb_refl.
  - now rewrite app_nil_r.
Qed.

Lemma subscribe_exec (w : world) :
  single_subscription w ->
  exec subscribe w =
    mkWorld (props w) (state w) (Some (next (disp w)))
            (mkDispatcher (known (disp w)) [next (disp w)] (S (next (disp w))))
            (trace w
               ++ match statusSubscription w with
                  | Some h => [Dispose h]
                  | None => []
                  end
               ++ [SubscribeToCommitStatus (repository (props w))
                     (getCommitRef (prNumber (props w)))
                     (branchName (props w)) (next (disp w))]).
Proof.
  intros H. pose proof (unsubscribe_exec w H) as Hu.
  unfold subscribe, exec, bind in *.
  destruct (unsubscribe w) as [[] w1]. cbn in Hu. subst w1. cbn.
  now rewrite <- app_assoc.
Qed.

Lemma componentDidMount_exec (w : world) :
  single_subscription w ->
  exists st tr,
    exec (componentDidMount adjective lower) w =
      mkWorld (props w) st (Some (next (disp w)))
              (mkDispatcher (known (disp w)) [next (disp w)]
                            (S (next (disp w))))
              (trace w ++ tr
                 ++ match statusSubscription w with
                    | Some h => [Dispose h]
                    | None => []
                    end
                 ++ [SubscribeToCommitStatus (repository (props w))
                       (getCommitRef (prNumber (props w)))
                       (branchName (props w)) (next (disp w))])
    /\ (exists check, st = delivered check)
    /\ subscribed tr = [] /\ disposed tr = [] /\ opened tr = [].
Proof.
  intros H.
  set (found := known (disp w) (repository (props w))
                  (getCommitRef (prNumber (props w))) (branchName (props w))).
  set (w1 := exec (onStatus found)
               (exec (tryGetCommitStatus (repository (props w))
                        (getCommitRef (prNumber (props w)))
                        (branchName (props w))) w)).
  assert (E : exec (componentDidMount adjective lower) w = exec subscribe w1)
    by reflexivity.
  rewrite E, subscribe_exec by exact H.
  exists (delivered found),
    [TryGetCommitStatus (repository (props w))
       (getCommitRef (prNumber (props w))) (branchName (props w));
     SetState (delivered found)].
  split.
  - subst w1. cbn. now rewrite <- !app_assoc.
  - split; [now exists found|]. repeat split.
Qed.

Lemma onViewCheckDetails_exec (checkRun : IRefCheck) (w : world) :
  exec (onViewCheckDetails checkRun) w =
    mkWorld (props w) (state w) (statusSubscription w) (disp w)
      (trace w
         ++ match htmlUrl checkRun, htmlURL (repository (props w)) with
            | Some u, _ => [OpenInBrowser u]
            | None, Some r =>
                [OpenInBrowser (r ++ "/pull/"
                                  ++ string_of_N (prNumber (props w)))%string]
            | None, None => []
            end).
Proof.
  destruct w as [[[r] b n] st s d tr], checkRun as [c u].
  unfold onViewCheckDetails, exec, bind, getProps. cbn.
  destruct u as [u|]; [reflexivity|].
  destruct r as [r|]; [reflexivity|]. cbn. now rewrite app_nil_r.
Qed.

Lemma onViewJobStep_exec (checkRun : IRefCheck) (s : IAPIWorkflowJobStep)
    (w : world) :
  exec (onViewJobStep checkRun s) w =
    mkWorld (props w) (state w) (statusSubscription w) (disp w)
      (trace w
         ++ match getCheckRunStepURL checkRun s (repository (props w))
                                     (prNumber (props w)) with
            | Some u => [OpenInBrowser u]
            | None => []
            end).
Proof.
  destruct w as [p st sb d tr].
  unfold PopoverView.onViewJobStep, exec, bind, getProps. cbn.
  destruct (getCheckRunStepURL _ _ _ _); [reflexivity|].
  cbn. now rewrite app_nil_r.
Qed.

(** What one action does to the world, given that the subscription
    held is the only active one. *)
Lemma act_effect (a : action IAPIWorkflowJobStep) (w : world) :
  single_subscription w ->
  exists st' sub' act' nxt' added,
    act a w =
      mkWorld (props w) st' sub'
              (mkDispatcher (known (disp w)) act' nxt') (trace w ++ added)
    /\ (st' = state w \/ exists check, st' = delivered check)
    /\ ((sub' = statusSubscription w /\ act' = active (disp w)
         /\ nxt' = next (disp w)
         /\ subscribed added = [] /\ disposed added = [])
        \/ (sub' = Some (next (disp w)) /\ act' = [next (disp w)]
            /\ nxt' = S (next (disp w))
            /\ subscribed added = [next (disp w)]
            /\ disposed added = held w)
        \/ (sub' = None /\ act' = [] /\ nxt' = next (disp w)
            /\ subscribed added = [] /\ disposed added = held w)).
Proof.
  intros H. destruct a as [[| | |check]|c|c s]; unfold PopoverView.act.
  - destruct (componentDidMount_exec w H)
      as (st & tr & E & Hst & Hs & Hd & _).
    unfold Popover.step, run. rewrite E. do 5 eexists.
    split; [reflexivity|]. split; [right; exact Hst|]. right; left.
    rewrite !subscribed_app, !disposed_app, Hs, Hd. unfold held.
    destruct (statusSubscription w); cbn; auto 10.
  - unfold Popover.step, run. rewrite subscribe_exec by exact H.
    do 5 eexists. split; [reflexivity|]. split; [now left|]. right; left.
    rewrite !subscribed_app, !disposed_app. unfold held.
    destruct (statusSubscription w); cbn; auto 10.
  - unfold Popover.step, run, componentWillUnmount.
    rewrite unsubscribe_exec by exact H.
    do 5 eexists. split; [reflexivity|]. split; [now left|]. right; right.
    unfold held. destruct (statusSubscription w); cbn; auto 10.
  - unfold Popover.step, run. rewrite statusChanged_exec by exact H.
    destruct w as [p st [h|] [k ac n] tr]; cbn.
    + exists (delivered check), (Some h), ac, n, [SetState (delivered check)].
      split; [reflexivity|]. split; [right; now exists check|]. left.
      cbn. auto 10.
    + exists st, None, ac, n, []. rewrite app_nil_r.
      split; [reflexivity|]. split; [now left|]. left. cbn. auto 10.
  - rewrite onViewCheckDetails_exec. destruct w as [p st sb [k ac n] tr].
    cbn. do 5 eexists. split; [reflexivity|]. split; [now left|]. left.
    destruct (htmlUrl c), (htmlURL (repository p)); cbn; auto 10.
  - rewrite onViewJobStep_exec. destruct w as [p st sb [k ac n] tr].
    cbn. do 5 eexists. split; [reflexivity|]. split; [now left|]. left.
    destruct (getCheckRunStepURL _ _ _ _); cbn; auto 10.
Qed.

Lemma in_use_single (w : world) : in_use w -> single_subscription w.
Proof.
  induction 1 as [p k n | w a _ IH]; [reflexivity|].
  destruct (act_effect a w IH)
    as (st' & sub' & act' & nxt' & added & E & _ & Hc).
  unfold PopoverView.act in E |- *. rewrite E.
  unfold single_subscription in *. cbn.
  destruct Hc as [(-> & -> & _)|[(-> & -> & _)|(-> & -> & _)]];
    [exact IH | reflexivity | reflexivity].
Qed.

Lemma delivered_settled check : settled summary (delivered check).
Proof.
  unfold settled, PopoverView.delivered. cbn.
  destruct check as [[cs]|]; cbn; repeat split; discriminate.
Qed.

(** In every state of the component in use the two loading flags
    agree, no check run is listed while they are set, and the summary
    line is the summary of the listed check runs (empty while loading). *)
Theorem state_settled (w : world) :
  in_use w -> settled summary (state w).
Proof.
  induction 1 as [p k n | w a Hu IH].
  - unfold settled. cbn. repeat split.
  - destruct (act_effect a w (in_use_single w Hu))
      as (st' & sub' & act' & nxt' & added & E & Hst & _).
    unfold PopoverView.act in E |- *. rewrite E. cbn.
    destruct Hst as [->|[check ->]]; [exact IH | apply delivered_settled].
Qed.

Lemma handles_invariant (w : world) :
  in_use w ->
  subscribed (trace w) = disposed (trace w) ++ held w
  /\ Forall (fun h => (h < next (disp w))%nat) (subscribed (trace w))
  /\ NoDup (subscribed (trace w)).
Proof.
  induction 1 as [p k n | w a Hu (IH1 & IH2 & IH3)].
  - cbn. repeat split; constructor.
  - destruct (act_effect a w (in_use_single w Hu))
      as (st' & sub' & act' & nxt' & added & E & _ & Hc).
    unfold PopoverView.act in E |- *. rewrite E. cbn [trace disp next].
    rewrite subscribed_app, disposed_app. unfold held in *.
    cbn [statusSubscription].
    destruct Hc as [(-> & _ & -> & -> & ->)
                   |[(-> & _ & -> & -> & ->)|(-> & _ & -> & -> & ->)]].
    + rewrite !app_nil_r. auto.
    + split; [|split].
      * rewrite IH1, <- app_assoc. reflexivity.
      * apply Forall_app. split.
        -- eapply Forall_impl; [|exact IH2]. intros h Hh. cbn in Hh. lia.
        -- constructor; [lia | constructor].
      * apply NoDup_app; [exact IH3 | repeat constructor; intros [] |].
        intros h Hh [<-|[]].
        rewrite Forall_forall in IH2. specialize (IH2 _ Hh). lia.
    + rewrite !app_nil_r. split; [|split]; [|exact IH2 | exact IH3].
      rewrite IH1. reflexivity.
Qed.

(** Every handle is accounted for: along the trace of the component in
    use, the handles obtained from the dispatcher are, in order, the
    handles disposed followed by the one still held, and no handle is
    obtained twice; so each subscription is disposed at most once, and
    all but the one held have been disposed. *)
Theorem handles_accounted (w : world) :
  in_use w ->
  subscribed (trace w) = disposed (trace w) ++ held w
  /\ NoDup (subscribed (trace w))
  /\ NoDup (disposed (trace w))
  /\ active (disp w) = held w.
Proof.
  intros Hu. destruct (handles_invariant w Hu) as (H1 & _ & H3).
  split; [exact H1|]. split; [exact H3|]. split.
  - rewrite H1 in H3. now apply NoDup_app_remove_r in H3.
  - apply (in_use_single w Hu).
Qed.

(** Mounting, subscribing, unmounting and status changes never open a
    page in the browser. *)
Theorem life_cycle_opens_nothing (e : event) (w : world) :
  in_use w -> opened (trace (step e w)) = opened (trace w).
Proof.
  intros Hu. pose proof (in_use_single w Hu) as H.
  destruct e as [| | |check]; unfold Popover.step, run.
  - destruct (componentDidMount_exec w H) as (st & tr & E & _ & _ & _ & Ho).
    rewrite E. cbn [trace]. rewrite !opened_app, Ho.
    destruct (statusSubscription w); cbn; now rewrite app_nil_r.
  - rewrite subscribe_exec by exact H. cbn [trace]. rewrite !opened_app.
    destruct (statusSubscription w); cbn; now rewrite app_nil_r.
  - unfold componentWillUnmount. rewrite unsubscribe_exec by exact H.
    cbn [trace]. rewrite opened_app.
    destruct (statusSubscription w); cbn; now rewrite app_nil_r.
  - rewrite statusChanged_exec by exact H.
    destruct (statusSubscription w); [|reflexivity].
    rewrite onStatus_exec. cbn [trace]. rewrite opened_app. cbn.
    now rewrite app_nil_r.
Qed.

(** A click on a check run or on a job step changes nothing in the
    component or the dispatcher; it opens at most one page: for a job
    step the page that [getCheckRunStepURL] gives, if it gives one. *)
Theorem clicks_only_open_pages (w : world) (checkRun : IRefCheck)
    (s : IAPIWorkflowJobStep) :
  let w1 := exec (onViewCheckDetails checkRun) w in
  let w2 := exec (onViewJobStep checkRun s) w in
  (state w1 = state w /\ statusSubscription w1 = statusSubscription w
   /\ disp w1 = disp w /\ props w1 = props w)
  /\ (state w2 = state w /\ statusSubscription w2 = statusSubscription w
      /\ disp w2 = disp w /\ props w2 = props w)
  /\ (exists pages, opened (trace w1) = opened (trace w) ++ pages
                     /\ (List.length pages <= 1)%nat)
  /\ opened (trace w2) =
       opened (trace w)
         ++ match getCheckRunStepURL checkRun s (repository (props w))
                                     (prNumber (props w)) with
            | Some u => [u]
            | None => []
            end.
Proof.
  cbn zeta. rewrite onViewCheckDetails_exec, onViewJobStep_exec. cbn.
  repeat split.
  - rewrite opened_app. eexists. split; [reflexivity|].
    destruct (htmlUrl checkRun), (htmlURL (repository (props w))); cbn; lia.
  - rewrite opened_app. destruct (getCheckRunStepURL _ _ _ _); reflexivity.
Qed.

(** What the popover shows in use, whenever it renders: the re-run
    button is disabled exactly when no check run is listed; the "Stand
    By" notice comes with the spinner, an empty summary line and the
    button disabled; and the list is given the listed check runs with
    both loading flags cleared. *)
Theorem view_in_use (countMap : list IRefCheck -> Donut.counts)
    (w : world) (v : view) :
  in_use w ->
  render countMap (state w) = Some v ->
  summary_line v = checkRunSummary (state w)
  /\ (rerun_disabled v = true <-> checkRuns (state w) = [])
  /\ (checkRuns (state w) = [] ->
      completeness v = SpinOcticon /\ summary_line v = "")
  /\ (below v = CheckRunLoadings ->
      completeness v = SpinOcticon /\ summary_line v = ""
      /\ rerun_disabled v = true)
  /\ (forall runs a b,
        below v = CheckRunList runs a b ->
        runs = checkRuns (state w) /\ a = false /\ b = false).
Proof.
  intros Hu Hr. destruct (state_settled w Hu) as (Hflags & Hload & Hsum).
  unfold PopoverView.render in Hr.
  destruct (renderCompletenessIndicator countMap (state w)) as [i|] eqn:Ei;
    [|discriminate].
  injection Hr as <-. cbn [summary_line rerun_disabled below completeness].
  unfold renderRerunButton.
  assert (Hspin : checkRuns (state w) = [] ->
                  i = SpinOcticon /\ checkRunSummary (state w) = "").
  { intros E. unfold renderCompletenessIndicator in Ei. rewrite E in Ei.
    cbn in Ei. injection Ei as <-. split; [reflexivity|].
    rewrite Hsum, E. now destruct (loadingActionWorkflows (state w)). }
  split; [reflexivity|]. split; [|split; [exact Hspin|split]].
  - rewrite orb_true_iff, Nat.eqb_eq, length_zero_iff_nil.
    split; [intros [E|E]; auto | auto].
  - rewrite Hflags.
    destruct (loadingActionWorkflows (state w)) eqn:El; cbn [negb];
      [|discriminate].
    intros _. destruct (Hspin (Hload eq_refl)) as [-> ->].
    rewrite orb_true_r. auto.
  - intros runs a b. rewrite Hflags.
    destruct (loadingActionWorkflows (state w)); cbn [negb]; [discriminate|].
    intros [= <- <- <-]. auto.
Qed.

End InUse.

End PopoverInUse.

(* ------------------------------------------------------------------ *)
(** ** Further facts about the completeness indicator *)
(* ------------------------------------------------------------------ *)

Module IndicatorCases.
Import Popover PopoverView.

Lemma conclusion_eqb_eq (a b : APICheckConclusion) :
  conclusion_eqb a b = true <-> a = b.
Proof.
  destruct a, b; cbn; try (split; [discriminate | congruence]);
    try (split; reflexivity).
  rewrite String.eqb_eq. split; congruence.
Qed.

Lemma all_success_iff (runs : list IRefCheck) :
  negb (existsb (fun v => match conclusion v with
                          | Some c => negb (conclusion_eqb c Success)
                          | None => true
                          end) runs) = true
  <-> Forall (fun c => conclusion c = Some Success) runs.
Proof.
  induction runs as [|r runs IH]; cbn [existsb].
  - split; [constructor | reflexivity].
  - rewrite negb_orb, andb_true_iff, IH, Forall_cons_iff.
    apply and_iff_compat_r. destruct (conclusion r) as [c|]; cbn.
    + rewrite negb_involutive, conclusion_eqb_eq. split; congruence.
    + split; discriminate.
Qed.

Lemma all_failure_iff (runs : list IRefCheck) :
  negb (existsb (fun v => match conclusion v with
                          | None => true
                          | Some c =>
                              negb (includes [Failure; Canceled;
                                              ActionRequired; TimedOut] c)
                          end) runs) = true
  <-> Forall (fun c => failed (conclusion c)) runs.
Proof.
  induction runs as [|r runs IH]; cbn [existsb].
  - split; [constructor | reflexivity].
  - rewrite negb_orb, andb_true_iff, IH, Forall_cons_iff.
    apply and_iff_compat_r. unfold failed.
    destruct (conclusion r) as [c|]; cbn.
    + destruct c; cbn; split; intros H;
        try discriminate; try tauto;
        repeat (destruct H as [H|H]; try discriminate).
    + split; [discriminate|].
      intros H. repeat (destruct H as [H|H]; try discriminate).
Qed.

(** The indicator is the spinner exactly when no check run is listed,
    the success icon exactly when check runs are listed and all of them
    concluded with success, and the error icon exactly when check runs
    are listed and each concluded with failure, cancellation, action
    required or time-out. *)
Theorem indicator_cases (countMap : list IRefCheck -> Donut.counts)
    (st : ICICheckRunPopoverState) :
  (renderCompletenessIndicator countMap st = Some SpinOcticon
   <-> checkRuns st = [])
  /\ (renderCompletenessIndicator countMap st = Some SuccessOcticon
      <-> checkRuns st <> []
          /\ Forall (fun c => conclusion c = Some Success) (checkRuns st))
  /\ (renderCompletenessIndicator countMap st = Some ErrorOcticon
      <-> checkRuns st <> []
          /\ Forall (fun c => failed (conclusion c)) (checkRuns st)).
Proof.
  unfold renderCompletenessIndicator.
  pose proof (all_success_iff (checkRuns st)) as HS.
  pose proof (all_failure_iff (checkRuns st)) as HF.
  destruct (checkRuns st) as [|r runs] eqn:E.
  { cbn. repeat split; try discriminate; try tauto; intros [H _]; congruence. }
  cbn [List.length Nat.eqb].
  destruct (negb (existsb _ (r :: runs))) eqn:ES.
  { assert (HSr : Forall (fun c => conclusion c = Some Success) (r :: runs))
      by now apply HS.
    repeat split; try discriminate; try assumption.
    intros [_ H]. inversion H as [|? ? Hr _]; subst.
    inversion HSr as [|? ? Hr' _]; subst. rewrite Hr' in Hr.
    unfold failed in Hr. repeat (destruct Hr as [Hr|Hr]; try discriminate). }
  assert (HnS : ~ Forall (fun c => conclusion c = Some Success) (r :: runs)).
  { intros H. apply HS in H. discriminate. }
  clear ES.
  destruct (negb (existsb _ (r :: runs))) eqn:EF.
  { repeat split; try discriminate; tauto. }
  assert (HnF : ~ Forall (fun c => failed (conclusion c)) (r :: runs)).
  { intros H. apply HF in H. discriminate. }
  destruct (Donut.donutSVG _ _ _);
    repeat split; try discriminate; tauto.
Qed.

End IndicatorCases.

(* ------------------------------------------------------------------ *)
(** ** Further facts about the summary line *)
(* ------------------------------------------------------------------ *)

Module SummaryCounts.
Import Popover SummaryFacts.

Lemma bump_sum (a : string) (m : list (string * N)) :
  fold_right N.add 0 (map snd (bump a m))
  = fold_right N.add 0 (map snd m) + 1.
Proof.
  unfold bump. induction m as [|[k v] m IH]; cbn [map_get map_set]; [reflexivity|].
  destruct (String.eqb k a); cbn [map snd fold_right] in *; lia.
Qed.

Lemma groups_sum (l : list string) :
  fold_right N.add 0 (map snd (groups l)) = N.of_nat (List.length l).
Proof.
  rewrite <- tally_groups.
  induction l as [|a l IH] using rev_ind; [reflexivity|].
  rewrite fold_left_app. cbn [fold_left]. rewrite bump_sum, IH, length_app.
  cbn [List.length]. lia.
Qed.

Lemma append_empty (a b : string) :
  (a ++ b)%string = "" -> a = "" /\ b = "".
Proof. destruct a; cbn; [tauto | discriminate]. Qed.

Section WithHelpers.

Variable adjective : option APICheckConclusion -> string.
Variable lower : string -> string.

Local Abbreviation summary := (getCombinedCheckSummary adjective lower).
Local Abbreviation adjectives := (adjectives adjective lower).
Local Abbreviation conclusionMap := (conclusionMap adjective lower).

(** The counting map of [getCombinedCheckSummary] has each adjective
    once, maps an adjective to the number of checks that have it (and has
    no entry for an adjective that no check has), and its counts add up
    to the number of checks. *)
Theorem conclusionMap_counts (checks : list IRefCheck) :
  NoDup (map fst (conclusionMap checks))
  /\ (forall a,
        In a (adjectives checks) ->
        map_get a (conclusionMap checks)
        = Some (occurrences a (adjectives checks))
        /\ 1 <= occurrences a (adjectives checks))
  /\ (forall a,
        ~ In a (adjectives checks) -> map_get a (conclusionMap checks) = None)
  /\ fold_right N.add 0 (map snd (conclusionMap checks))
     = N.of_nat (List.length checks).
Proof.
  rewrite conclusionMap_groups. split; [|split; [|split]].
  - unfold groups. rewrite map_map. cbn [fst]. rewrite map_id.
    apply distinct_NoDup.
  - intros a Ha. unfold groups. rewrite map_get_keyed.
    destruct (in_dec string_dec a (distinct (adjectives checks))) as [_|H];
      [|exfalso; apply H; now apply distinct_In].
    split; [reflexivity|]. unfold occurrences.
    apply (count_occ_In string_dec) in Ha. lia.
  - intros a Ha. unfold groups. rewrite map_get_keyed.
    destruct (in_dec string_dec a (distinct (adjectives checks))) as [H|_];
      [|reflexivity].
    exfalso. apply Ha. now apply distinct_In.
  - rewrite groups_sum. unfold Popover.adjectives. now rewrite length_map.
Qed.

(** The summary line is empty exactly when there is nothing to
    summarise: a null combined check or one without checks. *)
Theorem summary_empty_iff (check : option ICombinedRefCheck) :
  summary check = ""
  <-> match check with
      | None => True
      | Some combined => checks combined = []
      end.
Proof.
  destruct check as [[cs]|]; [|split; reflexivity]. cbn [Popover.checks].
  split; [|intros ->; reflexivity].
  intros H. destruct cs as [|c cs]; [reflexivity|]. exfalso.
  unfold getCombinedCheckSummary in H. cbn [Popover.checks] in H.
  change (List.length (c :: cs) =? 0)%nat with false in H. cbn iota in H.
  destruct (1 <? _)%nat in H.
  - apply append_empty in H. destruct H as [_ H]. discriminate.
  - pose proof (conclusionMap_nonempty adjective lower (c :: cs)) as Hne.
    destruct (conclusionMap (c :: cs)) as [|[a n] m];
      [apply Hne; [discriminate | reflexivity]|].
    cbn [map] in H. apply append_empty in H. destruct H as [_ H].
    discriminate.
Qed.

End WithHelpers.

End SummaryCounts.

(* ------------------------------------------------------------------ *)
(** ** Instances *)
(* ------------------------------------------------------------------ *)


Lemma donutSVG_ring_paths_witness :
  Forall (fun p => DonutShape.ring_path 15 9 (Donut.path p)
                   /\ List.length (Donut.path p) = 22%nat)
         (snd (Donut.sweep 3 15 9 [("success", 2); ("failure", 1)] 0)).
Proof.
  exact (DonutPaths.donutSVG_ring_paths
           [("success", 2); ("failure", 1)] 15 9 _
           (DonutFacts.donutSVG_unfold
              [("success", 2); ("failure", 1)] 15 9 3 eq_refl)).
Defined.

Lemma donutSVG_skip_zeros_witness :
  Donut.donutSVG (filter Donut.nonzero [("pending", 0); ("success", 2)]) 15 9
  = Donut.donutSVG [("pending", 0); ("success", 2)] 15 9.
Proof.
  apply (DonutPaths.donutSVG_skip_zeros [("pending", 0); ("success", 2)] 15 9).
  exists ("success", 2). split; [right; left; reflexivity | discriminate].
Defined.

Lemma donutSVG_names_witness :
  exists d,
    Donut.donutSVG [("pending", 0); ("success", 2)] 15 9 = Some d
    /\ map Donut.name (Donut.paths d) = ["success"]
    /\ (Donut.paths d = []
        <-> Forall (fun e => snd e = 0) [("pending", 0); ("success", 2)]).
Proof.
  apply (DonutPaths.donutSVG_names [("pending", 0); ("success", 2)] 15 9).
  discriminate.
Defined.


Lemma getNonActionsOutputMD_null_witness :
  Logs.getNonActionsOutputMD
    (Logs.mkOutput Logs.Actions None (Logs.Value [32]) (Some [104; 105]))
  = None.
Proof.
  apply (proj2 (proj1 (LogsContent.getNonActionsOutputMD_null
                         (Logs.mkOutput Logs.Actions None (Logs.Value [32])
                                        (Some [104; 105]))))).
  split.
  - right; right. exists [32]. split; reflexivity.
  - left. reflexivity.
Defined.

Lemma placeholder_alone_witness :
  Logs.render (fun s => s)
    (Logs.mkProps
       (Logs.mkCheck [99; 105]
          (Logs.mkOutput Logs.Default (Some [99; 105]) Logs.Null (Some [32]))
          None)
       true false)
  = Logs.LogsPanel false Logs.placeholder (Logs.NonActionsLogOutput None).
Proof.
  apply (LogsContent.placeholder_alone (fun s => s)).
  exists false, (Logs.NonActionsLogOutput None). reflexivity.
Defined.

Lemma default_placeholder_or_markdown_witness :
  exists first md,
    Logs.render (fun s => s)
      (Logs.mkProps
         (Logs.mkCheck [99; 105]
            (Logs.mkOutput Logs.Default None Logs.Null (Some [32; 111; 107]))
            None)
         false false)
    = Logs.LogsPanel false first (Logs.NonActionsLogOutput md)
    /\ (first = Logs.placeholder <-> md = None)
    /\ (forall text, md = Some text -> text <> []).
Proof.
  apply (LogsContent.default_placeholder_or_markdown (fun s => s)
           (Logs.mkProps
              (Logs.mkCheck [99; 105]
                 (Logs.mkOutput Logs.Default None Logs.Null
                                (Some [32; 111; 107]))
                 None)
              false false)); reflexivity.
Defined.

Lemma summary_rendered_once_witness :
  exists head main,
    Logs.render (fun s => s)
      (Logs.mkProps
         (Logs.mkCheck [99; 105]
            (Logs.mkOutput Logs.Default None (Logs.Value [104; 105; 10])
                           (Some [32; 111; 107]))
            None)
         false false)
    = Logs.LogsPanel false
        (Logs.MetaOutput (Some (Logs.mkMeta head None)))
        (Logs.NonActionsLogOutput (Some ([104; 105; 10] ++ main))).
Proof.
  apply (LogsContent.summary_rendered_once (fun s => s)
           (Logs.mkProps
              (Logs.mkCheck [99; 105]
                 (Logs.mkOutput Logs.Default None (Logs.Value [104; 105; 10])
                                (Some [32; 111; 107]))
                 None)
              false false)
           [104; 105; 10]);
    [reflexivity | reflexivity | reflexivity |].
  intros H. vm_compute in H. discriminate H.
Defined.

Lemma heading_shown_witness :
  Logs.title (Logs.mkOutput Logs.Default (Some [32; 66]) Logs.Null None)
  = Some [32; 66]
  /\ ~ Logs.blank [32; 66]
  /\ Logs.trim [32; 66] <> Logs.trim [65].
Proof.
  apply (LogsContent.heading_shown (fun s => s)
           (Logs.mkProps
              (Logs.mkCheck [65]
                 (Logs.mkOutput Logs.Default (Some [32; 66]) Logs.Null None)
                 None)
              false false)
           (Logs.mkOutput Logs.Default (Some [32; 66]) Logs.Null None)
           [65]
           (Logs.mkMeta (Some [32; 66]) None)
           [32; 66]); reflexivity.
Defined.

Lemma workflow_run_shows_action_logs_witness :
  Logs.render (fun s => s)
    (Logs.mkProps
       (Logs.mkCheck [99; 105]
          (Logs.mkOutput Logs.Actions None Logs.Null None) (Some 7))
       true false)
  = Logs.LogsPanel true (Logs.MetaOutput None)
      (Logs.ActionLogs (Logs.mkOutput Logs.Actions None Logs.Null None) true).
Proof.
  apply (LogsContent.workflow_run_shows_action_logs (fun s => s)
           (Logs.mkProps
              (Logs.mkCheck [99; 105]
                 (Logs.mkOutput Logs.Actions None Logs.Null None) (Some 7))
              true false)
           7); reflexivity.
Defined.


Lemma state_settled_witness :
  PopoverView.settled
    (Popover.getCombinedCheckSummary (fun _ => "Successful") (fun s => s))
    (Popover.state
       (PopoverView.act (fun _ => "Successful") (fun s => s) unit
          (fun _ _ _ _ => None)
          (PopoverView.Cycle unit Popover.Mount)
          (Popover.initial
             (Popover.mkProps (Popover.mkRepo None) "main" 7)
             (fun _ _ _ =>
                Some (Popover.mkCombined
                        [Popover.mkCheck (Some Popover.Success) None]))
             0%nat))).
Proof.
  apply (PopoverInUse.state_settled (fun _ => "Successful") (fun s => s) unit
           (fun _ _ _ _ => None)).
  apply PopoverView.use_act, PopoverView.use_initial.
Defined.

Lemma handles_accounted_witness :
  PopoverView.subscribed
    (Popover.trace
       (PopoverView.act (fun _ => "Successful") (fun s => s) unit
          (fun _ _ _ _ => None)
          (PopoverView.Cycle unit Popover.Subscribe)
          (PopoverView.act (fun _ => "Successful") (fun s => s) unit
             (fun _ _ _ _ => None)
             (PopoverView.Cycle unit Popover.Mount)
             (Popover.initial
                (Popover.mkProps (Popover.mkRepo None) "main" 7)
                (fun _ _ _ => None) 4%nat))))
  = [4%nat] ++ [5%nat].
Proof.
  refine (proj1 (PopoverInUse.handles_accounted
                   (fun _ => "Successful") (fun s => s) unit
                   (fun _ _ _ _ => None) _ _)).
  apply PopoverView.use_act, PopoverView.use_act, PopoverView.use_initial.
Defined.

Lemma life_cycle_opens_nothing_witness :
  PopoverView.opened
    (Popover.trace
       (Popover.step (fun _ => "Successful") (fun s => s) Popover.Unmount
          (PopoverView.act (fun _ => "Successful") (fun s => s) unit
             (fun _ _ _ _ => None)
             (PopoverView.ViewCheckDetails unit
                (Popover.mkCheck None (Some "https://example.com/run/1")))
             (Popover.initial
                (Popover.mkProps (Popover.mkRepo None) "main" 7)
                (fun _ _ _ => None) 0%nat))))
  = ["https://example.com/run/1"].
Proof.
  refine (PopoverInUse.life_cycle_opens_nothing
            (fun _ => "Successful") (fun s => s) unit (fun _ _ _ _ => None)
            Popover.Unmount _ _).
  apply PopoverView.use_act, PopoverView.use_initial.
Defined.

Lemma view_in_use_witness :
  PopoverView.rerun_disabled
    (PopoverView.mkView Popover.SpinOcticon "" true PopoverView.CheckRunLoadings)
  = true
  <-> Popover.checkRuns
        (Popover.state
           (Popover.initial (Popover.mkProps (Popover.mkRepo None) "main" 7)
                            (fun _ _ _ => None) 0%nat))
      = [].
Proof.
  refine (proj1 (proj2 (PopoverInUse.view_in_use
                          (fun _ => "Successful") (fun s => s) unit
                          (fun _ _ _ _ => None) (fun _ => [])
                          (Popover.initial
                             (Popover.mkProps (Popover.mkRepo None) "main" 7)
                             (fun _ _ _ => None) 0%nat)
                          (PopoverView.mkView Popover.SpinOcticon "" true
                                              PopoverView.CheckRunLoadings)
                          _ _))).
  - apply PopoverView.use_initial.
  - reflexivity.
Defined.

Lemma indicator_cases_witness :
  Popover.renderCompletenessIndicator (fun _ => [])
    (Popover.mkState
       [Popover.mkCheck (Some Popover.Failure) None;
        Popover.mkCheck (Some Popover.TimedOut) None]
       "2 failed checks" false false)
  = Some Popover.ErrorOcticon.
Proof.
  apply (proj2 (proj2 (IndicatorCases.indicator_cases (fun _ => [])
                         (Popover.mkState
                            [Popover.mkCheck (Some Popover.Failure) None;
                             Popover.mkCheck (Some Popover.TimedOut) None]
                            "2 failed checks" false false)))).
  split; [discriminate|].
  constructor; [left; reflexivity|].
  constructor; [right; right; right; reflexivity | constructor].
Defined.

Lemma conclusionMap_counts_witness :
  Popover.map_get "failed"
    (Popover.conclusionMap
       (fun c => match c with Some Popover.Success => "successful" | _ => "failed" end)
       (fun s => s)
       [Popover.mkCheck (Some Popover.Failure) None;
        Popover.mkCheck (Some Popover.Success) None;
        Popover.mkCheck None None])
  = Some 2.
Proof.
  refine (proj1 (proj1 (proj2 (SummaryCounts.conclusionMap_counts
            (fun c => match c with
                      | Some Popover.Success => "successful"
                      | _ => "failed"
                      end)
            (fun s => s)
            [Popover.mkCheck (Some Popover.Failure) None;
             Popover.mkCheck (Some Popover.Success) None;
             Popover.mkCheck None None])) "failed" _)).
  left. reflexivity.
Defined.

Lemma summary_empty_iff_witness :
  Popover.getCombinedCheckSummary (fun _ => "successful") (fun s => s)
    (Some (Popover.mkCombined []))
  = "".
Proof.
  apply (proj2 (SummaryCounts.summary_empty_iff
                  (fun _ => "successful") (fun s => s)
                  (Some (Popover.mkCombined [])))).
  reflexivity.
Defined.
